(** * agent-primer: recency cache, discovery, prompt formatting, launch

    A shallow embedding of [src/cache.ts], [src/primitives/skill.ts],
    [src/primitives/domain.ts] and the selection/launch part of [index.ts],
    followed by the properties of the specification that concern them.

    Conventions of the embedding.
    - A JavaScript exception is a [Throw] completion; code that touches the
      file system runs in the state-and-exception monad [IO] over an abstract
      file system (the [node:fs] calls the sources make).
    - [JSON.parse], [JSON.stringify], [String.prototype.localeCompare] and
      gray-matter's [matter] belong to the runtime, not to the repository:
      they are the fields of the class [Runtime].
    - A path is the list of the components of a normalised absolute POSIX
      path, so that [join], [dirname] and [basename] are list operations
      ("/" is the empty list, and its base name is the empty string, as in
      Node).
    - A number is an integer ([Z]).  The sources only compare numbers (sign
      of a difference, [!==], truthiness), so every finite set of finite
      doubles embeds into [Z] with the same behaviour; [Date.now()] is an
      integer already. *)

From Stdlib Require Import ZArith String Ascii Permutation Sorted.
From stdpp Require Import base option list gmap strings sorting pretty.

Set Warnings "-register-all".

Local Open Scope Z_scope.

(* ================================================================== *)
(** * The JavaScript runtime                                           *)
(* ================================================================== *)

Module JS.

(** Exceptions. *)
Inductive Error : Type :=
| FsError (code : string)      (* ENOENT, EACCES, EISDIR, ... *)
| SyntaxError                  (* JSON.parse, YAML *)
| ZodError.                    (* Schema.parse *)

Inductive Completion (A : Type) : Type :=
| Ok (a : A)
| Throw (e : Error).
Arguments Ok {A} a.
Arguments Throw {A} e.

#[global] Instance Completion_ret : MRet Completion := fun A a => Ok a.
#[global] Instance Completion_bind : MBind Completion := fun A B f m =>
  match m with
  | Ok a => f a
  | Throw e => Throw e
  end.

(** [try { body } catch { handler }] for pure completions. *)
Definition try_catch {A} (body : Completion A) (handler : Error → Completion A)
  : Completion A :=
  match body with
  | Ok a => Ok a
  | Throw e => handler e
  end.

(** [arr.map(f)] when [f] may throw: the first exception aborts the map. *)
Fixpoint array_map {A B} (f : A → Completion B) (l : list A) : Completion (list B) :=
  match l with
  | [] => Ok []
  | x :: l' => y ← f x; ys ← array_map f l'; Ok (y :: ys)
  end.

(** JSON values, as [JSON.parse] and the YAML loader produce them. *)
Inductive json : Type :=
| JNull
| JBool (b : bool)
| JNumber (n : Z)
| JString (s : string)
| JArray (l : list json)
| JObject (fields : list (string * json)).

(** ** Objects used as string-keyed maps

    Own properties in insertion order, one binding per key.  (Keys that
    are array indices would be enumerated first by the engine; the keys
    this program writes contain a colon and are never array indices.) *)
Definition JSObject (V : Type) : Type := list (string * V).

Fixpoint obj_get {V} (k : string) (o : JSObject V) : option V :=
  match o with
  | [] => None
  | (k', v) :: o' => if String.eqb k k' then Some v else obj_get k o'
  end.

(** [o[k] = v]: overwrite in place, or append a new property. *)
Fixpoint obj_set {V} (k : string) (v : V) (o : JSObject V) : JSObject V :=
  match o with
  | [] => [(k, v)]
  | (k', v') :: o' =>
      if String.eqb k k' then (k', v) :: o' else (k', v') :: obj_set k v o'
  end.

(** [delete o[k]]. *)
Fixpoint obj_delete {V} (k : string) (o : JSObject V) : JSObject V :=
  match o with
  | [] => []
  | (k', v') :: o' =>
      if String.eqb k k' then obj_delete k o' else (k', v') :: obj_delete k o'
  end.

Definition Object_entries {V} (o : JSObject V) : list (string * V) := o.
Definition Object_keys {V} (o : JSObject V) : list string := o.*1.

Definition Object_fromEntries {V} (es : list (string * V)) : JSObject V :=
  foldl (fun o e => obj_set e.1 e.2 o) [] es.

(** ** Array.prototype.sort

    The sort is stable (ES2019).  For a consistent comparator the result
    is determined by the specification; it is computed here by insertion,
    each element being placed before the first element of the sorted rest
    that it does not follow. *)
Fixpoint sort_insert {A} (cmp : A → A → Z) (x : A) (l : list A) : list A :=
  match l with
  | [] => [x]
  | y :: l' => if cmp x y <=? 0 then x :: y :: l' else y :: sort_insert cmp x l'
  end.

Definition array_sort {A} (cmp : A → A → Z) (l : list A) : list A :=
  foldr (sort_insert cmp) [] l.

(** [arr.slice(0, n)]. *)
Definition slice0 {A} (n : nat) (l : list A) : list A := take n l.

(** ** Arrays as heap objects

    Arrays are mutable and passed by reference: a heap maps a reference to
    the current elements of the array. *)
Definition ref : Type := nat.
Abbreviation Heap A := (gmap ref (list A)).

(** [[...a]]: a fresh array holding the elements of [a]. *)
Definition spread {A} (a : ref) (h : Heap A) : ref * Heap A :=
  let r := fresh (dom h) in
  (r, <[r := default [] (h !! a)]> h).

(** [a.sort(cmp)]: sorts [a] in place and returns [a] itself. *)
Definition sort_in_place {A} (cmp : A → A → Z) (a : ref) (h : Heap A)
  : ref * Heap A :=
  (a, alter (array_sort cmp) a h).

(** [Map.groupBy(items, key)]: groups in order of first occurrence of the
    key, members in input order. *)
Fixpoint group_insert {A} (k : string) (x : A) (gs : list (string * list A))
  : list (string * list A) :=
  match gs with
  | [] => [(k, [x])]
  | (k', xs) :: gs' =>
      if String.eqb k k' then (k', xs ++ [x]) :: gs'
      else (k', xs) :: group_insert k x gs'
  end.

Definition Map_groupBy {A} (key : A → string) (items : list A)
  : list (string * list A) :=
  foldl (fun gs x => group_insert (key x) x gs) [] items.

Definition nl : string := String (ascii_of_nat 10) EmptyString.

(** [s.repeat(n)]. *)
Fixpoint repeat_string (s : string) (n : nat) : string :=
  match n with
  | O => ""
  | S n' => s +:+ repeat_string s n'
  end.

(** [arr.join(sep)]. *)
Definition join_strings (sep : string) (l : list string) : string :=
  String.concat sep l.

End JS.
Import JS.

(* ================================================================== *)
(** * node:path on normalised absolute paths                           *)
(* ================================================================== *)

Module Path.

Definition Path : Type := list string.

(** [join(dir, name)] for a [name] without separators. *)
Definition join (dir : Path) (name : string) : Path := dir ++ [name].

(** [dirname(p)]; [dirname("/") = "/"]. *)
Definition dirname (p : Path) : Path := removelast p.

(** [basename(p)]; [basename("/") = ""]. *)
Definition basename (p : Path) : string := List.last p "".

(** [resolve(p)] makes a path absolute and normalises it, by text alone:
    symbolic links are not consulted.  On a normalised absolute path it is
    the identity. *)
Definition resolve (p : Path) : Path := p.

(** The text of a path. *)
Definition to_string (p : Path) : string :=
  "/" +:+ String.concat "/" p.

End Path.
Import Path.

(* ================================================================== *)
(** * src/types.ts                                                     *)
(* ================================================================== *)

Module Types.

Inductive Source : Type := global | local.

Definition Source_to_string (s : Source) : string :=
  match s with
  | global => "global"
  | local => "local"
  end.

Record PrimitiveItem : Type := {
  type : string;
  name : string;
  description : string;
  path : Path;
  source : Source
}.

Record PrimitiveContent : Type := {
  item : PrimitiveItem;
  mainContent : string;
  metadata : JSObject json
}.

Record ParsedArgs : Type := {
  help : bool;
  clearRecent : bool;
  list_flag : bool;
  dangerousMode : bool;
  claudeArgs : list string
}.

Record RecentCache : Type := { recent : JSObject Z }.

Record SkillFrontmatter : Type := {
  fm_name : option string;
  fm_description : option string
}.

(** [z.record(z.string(), z.number())] on the fields of an object: the
    output object is built by assigning the checked properties one by one. *)
Fixpoint record_of_numbers (fields : list (string * json)) (out : JSObject Z)
  : option (JSObject Z) :=
  match fields with
  | [] => Some out
  | (k, JNumber n) :: fields' => record_of_numbers fields' (obj_set k n out)
  | _ :: _ => None
  end.

(** [RecentCacheSchema.safeParse]: [Some data] on success, [None] when the
    value is not an object whose [recent] is a record of numbers.  Other
    properties of the object are dropped. *)
Definition RecentCacheSchema_safeParse (j : json) : option RecentCache :=
  match j with
  | JObject fields =>
      match obj_get "recent" fields with
      | Some (JObject r) =>
          match record_of_numbers r [] with
          | Some rec => Some {| recent := rec |}
          | None => None
          end
      | _ => None
      end
  | _ => None
  end.

(** [z.string().optional()] on a property that may be missing. *)
Definition optional_string (o : option json) : option (option string) :=
  match o with
  | None => Some None
  | Some (JString s) => Some (Some s)
  | Some _ => None
  end.

(** [SkillFrontmatterSchema.safeParse] and [DomainFrontmatterSchema.safeParse]
    (the two schemas are the same object schema). *)
Definition FrontmatterSchema_safeParse (data : json) : option SkillFrontmatter :=
  match data with
  | JObject fields =>
      match optional_string (obj_get "name" fields),
            optional_string (obj_get "description" fields) with
      | Some n, Some d => Some {| fm_name := n; fm_description := d |}
      | _, _ => None
      end
  | _ => None
  end.

(** [z.array(z.string())]. *)
Fixpoint array_of_strings (l : list json) : option (list string) :=
  match l with
  | [] => Some []
  | JString s :: l' =>
      match array_of_strings l' with
      | Some r => Some (s :: r)
      | None => None
      end
  | _ :: _ => None
  end.

(** [SkillMetadataSchema.parse] and [DomainMetadataSchema.parse]: the
    [references] of the metadata, or a [ZodError]. *)
Definition MetadataSchema_parse (m : JSObject json) : Completion (list string) :=
  match obj_get "references" m with
  | Some (JArray l) =>
      match array_of_strings l with
      | Some refs => Ok refs
      | None => Throw ZodError
      end
  | _ => Throw ZodError
  end.

End Types.
Import Types.

(* ================================================================== *)
(** * The environment: runtime library and file system                 *)
(* ================================================================== *)

(** What the sources take from the JavaScript runtime, from gray-matter and
    from the process. *)
Class Runtime : Type := {
  JSON_parse : string → Completion json;
  (** [JSON.stringify(cache, null, 2)] *)
  JSON_stringify : RecentCache → string;
  (** [a.localeCompare(b)] *)
  localeCompare : string → string → Z;
  (** [matter(content)]: the pair of [data] and [content] *)
  matter : string → Completion (json * string);
  (** [homedir()] and [process.cwd()] *)
  homedir : Path;
  cwd : Path
}.

Record Dirent : Type := { dirent_name : string; isSymbolicLink : bool }.
Record Stats : Type := { isDirectory : bool }.

(** The [node:fs] calls of the sources over a file-system state.  Calls that
    only read return a completion; calls that write also return the new
    state, which an exception does not undo. *)
Class FileSystem (Disk : Type) : Type := {
  existsSync : Path → Disk → bool;
  readFileSync : Path → Disk → Completion string;
  (** [readdirSync(dir, { withFileTypes: true })] *)
  readdirSync_withFileTypes : Path → Disk → Completion (list Dirent);
  readdirSync : Path → Disk → Completion (list string);
  realpathSync : Path → Disk → Completion Path;
  (** [statSync(p, { throwIfNoEntry: false })] *)
  statSync : Path → Disk → Completion (option Stats);
  (** [mkdirSync(dir, { recursive: true })] *)
  mkdirSync : Path → Disk → Completion unit * Disk;
  writeFileSync : Path → string → Disk → Completion unit * Disk;
  unlinkSync : Path → Disk → Completion unit * Disk
}.

(** State and exceptions. *)
Definition IO (Disk A : Type) : Type := Disk → Completion A * Disk.

#[global] Instance IO_ret {Disk} : MRet (IO Disk) := fun A a fs => (Ok a, fs).
#[global] Instance IO_bind {Disk} : MBind (IO Disk) := fun A B f m fs =>
  match m fs with
  | (Ok a, fs') => f a fs'
  | (Throw e, fs') => (Throw e, fs')
  end.

(** A call that only reads. *)
Definition io_read {Disk A} (f : Disk → Completion A) : IO Disk A :=
  fun fs => (f fs, fs).

(** [try { body } catch { handler }] in [IO]. *)
Definition io_try_catch {Disk A} (body : IO Disk A) (handler : Error → IO Disk A)
  : IO Disk A :=
  fun fs =>
    match body fs with
    | (Ok a, fs') => (Ok a, fs')
    | (Throw e, fs') => handler e fs'
    end.

(* ================================================================== *)
(** * src/cache.ts                                                     *)
(* ================================================================== *)

Module Cache.
Section Cache.
Context `{Runtime} {Disk : Type} `{FileSystem Disk}.

Definition CACHE_DIR : Path := join (join homedir ".cache") "agent-primer".
Definition CACHE_FILE : Path := join CACHE_DIR "recent.json".
Definition MAX_RECENT : nat := 10.

Definition cacheKey (item : PrimitiveItem) : string :=
  type item +:+ ":" +:+ Source_to_string (source item) +:+ ":" +:+ name item.

Definition empty_cache : RecentCache := {| recent := [] |}.

(** The [try] block yields [Some data] when it returns [parsed.data] and
    [None] when control leaves it normally; the [catch] swallows every
    exception. *)
Definition loadCache (fs : Disk) : Completion RecentCache :=
  returned ← try_catch
    (if existsSync CACHE_FILE fs then
       data ← readFileSync CACHE_FILE fs;
       parsed_json ← JSON_parse data;
       Ok (RecentCacheSchema_safeParse parsed_json)
     else Ok None)
    (fun _ => Ok None);
  match returned with
  | Some data => Ok data
  | None => Ok empty_cache
  end.

Definition saveCache (cache : RecentCache) : IO Disk unit :=
  io_try_catch
    (_ ← (mkdirSync CACHE_DIR : IO Disk unit);
     (writeFileSync CACHE_FILE (JSON_stringify cache) : IO Disk unit))
    (fun _ => mret ()).

(** The loop of [updateCache]: [cache.recent[cacheKey(item)] = now]. *)
Definition updateCache_record (items : list PrimitiveItem) (now : Z)
    (cache : RecentCache) : RecentCache :=
  foldl (fun c item => {| recent := obj_set (cacheKey item) now (recent c) |})
        cache items.

(** The pruning step of [updateCache]. *)
Definition updateCache_prune (cache : RecentCache) : RecentCache :=
  let entries := Object_entries (recent cache) in
  if (MAX_RECENT <? length entries)%nat then
    {| recent :=
         Object_fromEntries
           (slice0 MAX_RECENT (array_sort (fun a b => b.2 - a.2) entries)) |}
  else cache.

(** [now] is the value of [Date.now()]. *)
Definition updateCache (items : list PrimitiveItem) (now : Z) : IO Disk unit :=
  cache ← io_read loadCache;
  saveCache (updateCache_prune (updateCache_record items now cache)).

(** [cache.recent[key] || 0]. *)
Definition time_or_zero (cache : RecentCache) (key : string) : Z :=
  match obj_get key (recent cache) with
  | Some t => if t =? 0 then 0 else t
  | None => 0
  end.

(** The comparator of [sortByRecent]. *)
Definition compareRecent (cache : RecentCache) (a b : PrimitiveItem) : Z :=
  let aTime := time_or_zero cache (cacheKey a) in
  let bTime := time_or_zero cache (cacheKey b) in
  if negb (aTime =? bTime) then bTime - aTime
  else localeCompare (name a) (name b).

(** [[...items].sort(cmp)]: the array [items] is copied, the copy is sorted
    in place and returned. *)
Definition sortByRecent (items : ref) (cache : RecentCache)
    (h : Heap PrimitiveItem) : ref * Heap PrimitiveItem :=
  let '(copy, h1) := spread items h in
  sort_in_place (compareRecent cache) copy h1.

Definition clearCache : IO Disk bool :=
  fun fs =>
    if existsSync CACHE_FILE fs then
      (_ ← (unlinkSync CACHE_FILE : IO Disk unit); mret true) fs
    else (Ok false, fs).

End Cache.
End Cache.

(* ================================================================== *)
(** * src/primitives/skill.ts and src/primitives/domain.ts             *)
(* ================================================================== *)

(** The [Primitive] interface of [types.ts]. *)
Record Primitive (Disk : Type) : Type := {
  prim_type : string;
  label : string;
  discoverItems : Disk → Completion (list PrimitiveItem);
  loadContent : PrimitiveItem → Disk → Completion PrimitiveContent;
  formatForPrompt : list PrimitiveContent → Completion string
}.
Arguments prim_type {Disk} _.
Arguments label {Disk} _.
Arguments discoverItems {Disk} _ _.
Arguments loadContent {Disk} _ _ _.
Arguments formatForPrompt {Disk} _ _.

(** [discoverSkillPaths]/[discoverDomainPaths] and [parseSkill]/[parseDomain]
    differ in the required file name and in the [type] of the items only;
    they are embedded once, over these two strings. *)
Module Discovery.
Section Discovery.
Context `{Runtime} {Disk : Type} `{FileSystem Disk}.
Variable required : string.      (* "SKILL.md" or "DOMAIN.md" *)
Variable type_name : string.     (* "skill" or "domain" *)

(** One iteration of the loop over the entries: the path pushed onto
    [paths], if any.  [continue] in the [catch] pushes nothing. *)
Definition scan_entry (dir : Path) (entry : Dirent) (fs : Disk)
  : Completion (option Path) :=
  let fullPath := join dir (dirent_name entry) in
  match (if isSymbolicLink entry then realpathSync fullPath fs
         else Ok fullPath) with
  | Throw _ => Ok None
  | Ok realPath =>
      stat ← statSync realPath fs;
      if match stat with Some st => isDirectory st | None => false end then
        let requiredFile := join realPath required in
        if existsSync requiredFile fs then Ok (Some requiredFile) else Ok None
      else if String.eqb (dirent_name entry) required then Ok (Some fullPath)
      else Ok None
  end.

(** The array [paths] after the loop. *)
Definition pushed_paths (pushed : list (option Path)) : list Path :=
  omap id pushed.

Definition discoverPaths (dir : Path) (fs : Disk) : Completion (list Path) :=
  if negb (existsSync dir fs) then Ok []
  else
    entries ← readdirSync_withFileTypes dir fs;
    pushed ← array_map (fun entry => scan_entry dir entry fs) entries;
    Ok (pushed_paths pushed).

(** [x || fallback] for an optional string: [undefined] and [""] are falsy. *)
Definition or_else (x : option string) (fallback : string) : string :=
  match x with
  | Some s => if String.eqb s "" then fallback else s
  | None => fallback
  end.

(** [None] is the [null] returned from the [catch] (the log lines are not
    modelled). *)
Definition parseItem (itemPath : Path) (src : Source) (fs : Disk)
  : option PrimitiveItem :=
  match (content ← readFileSync itemPath fs; matter content) with
  | Throw _ => None
  | Ok (data, _) =>
      let parsed := FrontmatterSchema_safeParse data in
      let frontmatter :=
        match parsed with
        | Some fm => fm
        | None => {| fm_name := None; fm_description := None |}
        end in
      let itemDir := dirname itemPath in
      let name := or_else (fm_name frontmatter) (basename itemDir) in
      let description :=
        or_else (fm_description frontmatter) "No description provided" in
      Some {| type := type_name; name := name; description := description;
              path := itemPath; source := src |}
  end.

(** The loop [for (const path of paths) { item = parse(path, src); if (item)
    items.push(item) }]. *)
Definition parseAll (paths : list Path) (src : Source) (fs : Disk)
  : list PrimitiveItem :=
  omap (fun p => parseItem p src fs) paths.

Definition loadContent (it : PrimitiveItem) (fs : Disk)
  : Completion PrimitiveContent :=
  rawContent ← readFileSync (path it) fs;
  parsed ← matter rawContent;
  let referencesDir := join (dirname (path it)) "references" in
  references ← (if existsSync referencesDir fs
                then readdirSync referencesDir fs else Ok []);
  Ok {| item := it; mainContent := parsed.2;
        metadata := [("references", JArray (JString <$> references))] |}.

End Discovery.
End Discovery.

Definition divider : string := repeat_string "=" 72.
Definition thinDivider : string := repeat_string "-" 72.

(** A template literal given line by line. *)
Definition lines (l : list string) : string := String.concat nl l.

Module Skill.
Section Skill.
Context `{Runtime} {Disk : Type} `{FileSystem Disk}.

Definition GLOBAL_SKILLS_DIR : Path := join (join homedir ".claude") "skills".
Definition LOCAL_SKILLS_DIR : Path := join (join cwd ".claude") "skills".

Definition discoverSkillPaths : Path → Disk → Completion (list Path) :=
  Discovery.discoverPaths "SKILL.md".

Definition parseSkill : Path → Source → Disk → option PrimitiveItem :=
  Discovery.parseItem "skill".

Definition discoverItems (fs : Disk) : Completion (list PrimitiveItem) :=
  globalPaths ← discoverSkillPaths GLOBAL_SKILLS_DIR fs;
  let items := Discovery.parseAll "skill" globalPaths global fs in
  (* Skip local scan if it resolves to the same directory as global *)
  if bool_decide (resolve LOCAL_SKILLS_DIR ≠ resolve GLOBAL_SKILLS_DIR) then
    localPaths ← discoverSkillPaths LOCAL_SKILLS_DIR fs;
    Ok (items ++ Discovery.parseAll "skill" localPaths local fs)
  else Ok items.

Definition loadContent : PrimitiveItem → Disk → Completion PrimitiveContent :=
  Discovery.loadContent.

Definition header : string :=
  lines [divider;
         "AGENT PRIMER: ACTIVE SKILLS FOR THIS SESSION";
         divider;
         "";
         "The following skills were hand-picked for this session. They contain";
         "specialized knowledge, patterns, and best practices that are directly";
         "relevant to the work ahead. Treat these as authoritative guidance and";
         "follow them when applicable to the user's request.";
         "";
         thinDivider].

Definition section (s : PrimitiveContent) : Completion string :=
  let skillDir := dirname (path (item s)) in
  references ← MetadataSchema_parse (metadata s);
  let text :=
    lines [""; "## " +:+ name (item s);
           "> Source: " +:+ to_string skillDir;
           "";
           mainContent s] in
  if (0 <? length references)%nat then
    Ok (text +:+
        lines [""; "";
               "### References bundled with " +:+ name (item s) +:+ ":";
               join_strings nl ((fun r => "- " +:+ r) <$> references);
               "";
               "Use Skill(" +:+ name (item s)
                 +:+ ") to load any reference file."])
  else Ok text.

Definition footer : string :=
  lines [""; ""; divider; "END AGENT PRIMER"; divider].

Definition formatForPrompt (contents : list PrimitiveContent)
  : Completion string :=
  sections ← array_map section contents;
  let skillSections := join_strings (nl +:+ nl +:+ thinDivider) sections in
  Ok (header +:+ skillSections +:+ footer).

Definition SkillPrimitive : Primitive Disk :=
  Build_Primitive Disk "skill" "Skills"
    discoverItems loadContent formatForPrompt.

End Skill.
End Skill.

Module Domain.
Section Domain.
Context `{Runtime} {Disk : Type} `{FileSystem Disk}.

Definition GLOBAL_DOMAINS_DIR : Path := join (join homedir ".claude") "domains".
Definition LOCAL_DOMAINS_DIR : Path := join (join cwd ".claude") "domains".

Definition discoverDomainPaths : Path → Disk → Completion (list Path) :=
  Discovery.discoverPaths "DOMAIN.md".

Definition parseDomain : Path → Source → Disk → option PrimitiveItem :=
  Discovery.parseItem "domain".

Definition discoverItems (fs : Disk) : Completion (list PrimitiveItem) :=
  globalPaths ← discoverDomainPaths GLOBAL_DOMAINS_DIR fs;
  let items := Discovery.parseAll "domain" globalPaths global fs in
  localPaths ← discoverDomainPaths LOCAL_DOMAINS_DIR fs;
  Ok (items ++ Discovery.parseAll "domain" localPaths local fs).

Definition loadContent : PrimitiveItem → Disk → Completion PrimitiveContent :=
  Discovery.loadContent.

Definition header : string :=
  lines [divider;
         "AGENT PRIMER: DOMAIN KNOWLEDGE FOR THIS SESSION";
         divider;
         "";
         "The following domain knowledge has been loaded for this session. This is";
         "reference material describing the concepts, standards, and context";
         "relevant to the work ahead. Use it to inform your decisions and avoid";
         "redundant research.";
         "";
         thinDivider].

Definition section (d : PrimitiveContent) : Completion string :=
  let domainDir := dirname (path (item d)) in
  references ← MetadataSchema_parse (metadata d);
  let text :=
    lines [""; "## " +:+ name (item d);
           "> Source: " +:+ to_string domainDir;
           "";
           mainContent d] in
  if (0 <? length references)%nat then
    Ok (text +:+
        lines [""; "";
               "### References bundled with " +:+ name (item d) +:+ ":";
               join_strings nl ((fun r => "- " +:+ r) <$> references);
               "";
               "These files are available in " +:+ to_string domainDir
                 +:+ "/references/ and can be read";
               "directly when deeper detail is needed."])
  else Ok text.

Definition footer : string :=
  lines [""; ""; divider; "END DOMAIN KNOWLEDGE"; divider].

Definition formatForPrompt (contents : list PrimitiveContent)
  : Completion string :=
  sections ← array_map section contents;
  let domainSections := join_strings (nl +:+ nl +:+ thinDivider) sections in
  Ok (header +:+ domainSections +:+ footer).

Definition DomainPrimitive : Primitive Disk :=
  Build_Primitive Disk "domain" "Domains"
    discoverItems loadContent formatForPrompt.

End Domain.
End Domain.

(* ================================================================== *)
(** * index.ts                                                         *)
(* ================================================================== *)

Module Main.

(** The answer to the confirmation [select]; [Cancel] is the cancel signal
    of the prompt library. *)
Inductive Confirmation : Type := Yes | No | ExitChoice | Cancel.

(** What the user answers during one pass of the selection loop: to the
    [multiselect] of a primitive type (given its label and the items
    offered), the items picked or [None] for the cancel signal; and to the
    confirmation. *)
Record Round : Type := {
  multiselect : string → list PrimitiveItem → option (list PrimitiveItem);
  select : Confirmation
}.

(** How [main] ends: [process.exit(code)], the spawn of [claude] with its
    arguments, or a prompt still waiting for an answer. *)
Inductive Outcome : Type :=
| Exit (code : Z)
| Spawn (args : list string)
| AwaitingInput.

(** The result of the selection loop. *)
Inductive Selection : Type :=
| Confirmed (selectedItems : list PrimitiveItem)
| Cancelled
| Pending.

Section Main.
Context `{Runtime} {Disk : Type} `{FileSystem Disk}.

Definition primitives : list (Primitive Disk) :=
  [Skill.SkillPrimitive; Domain.DomainPrimitive].

Definition find_primitive (ty : string) : option (Primitive Disk) :=
  List.find (fun p => String.eqb (prim_type p) ty) primitives.

(** The pickers of one pass, one per type in the order of [Map.groupBy];
    [None] when a picker is cancelled. *)
Fixpoint pickers (round : Round) (groups : list (string * list PrimitiveItem))
  : option (list PrimitiveItem) :=
  match groups with
  | [] => Some []
  | (ty, items) :: groups' =>
      let lbl := match find_primitive ty with
                 | Some p => label p
                 | None => ty
                 end in
      match multiselect round lbl items with
      | None => None
      | Some selected =>
          match pickers round groups' with
          | None => None
          | Some more => Some (selected ++ more)
          end
      end
  end.

(** The [while (true)] loop, driven by the answers of the user, pass after
    pass. *)
Fixpoint selection_loop (script : list Round) (sortedItems : list PrimitiveItem)
  : Selection :=
  match script with
  | [] => Pending
  | round :: script' =>
      match pickers round (Map_groupBy type sortedItems) with
      | None => Cancelled
      | Some selectedItems =>
          match select round with
          | Yes => Confirmed selectedItems
          | No => selection_loop script' sortedItems
          | ExitChoice | Cancel => Cancelled
          end
      end
  end.

Definition dangerousArgs (args : ParsedArgs) : list string :=
  if dangerousMode args then ["--dangerously-skip-permissions"] else [].

(** The loop over [selectedByType] that fills [promptSections]. *)
Fixpoint promptSections (groups : list (string * list PrimitiveItem)) (fs : Disk)
  : Completion (list string) :=
  match groups with
  | [] => Ok []
  | (ty, items) :: groups' =>
      match find_primitive ty with
      | None => promptSections groups' fs
      | Some primitive =>
          contents ← array_map (fun it => loadContent primitive it fs) items;
          block ← formatForPrompt primitive contents;
          more ← promptSections groups' fs;
          Ok (block :: more)
      end
  end.

(** [main] after the selection loop. *)
Definition launch (args : ParsedArgs) (selectedItems : list PrimitiveItem)
    (now : Z) : IO Disk Outcome :=
  if (length selectedItems =? 0)%nat then
    mret (Spawn (dangerousArgs args ++ claudeArgs args))
  else
    _ ← Cache.updateCache selectedItems now;
    sections ← io_read (promptSections (Map_groupBy type selectedItems));
    let systemPrompt := join_strings (nl +:+ nl) sections in
    mret (Spawn (dangerousArgs args
                 ++ ["--append-system-prompt"; systemPrompt]
                 ++ claudeArgs args)).

(** [main] from the selection loop on. *)
Definition orchestrate (args : ParsedArgs) (sortedItems : list PrimitiveItem)
    (script : list Round) (now : Z) : IO Disk Outcome :=
  match selection_loop script sortedItems with
  | Pending => mret AwaitingInput
  | Cancelled => mret (Exit 0)
  | Confirmed selectedItems => launch args selectedItems now
  end.

(** [primitives.flatMap((p) => p.discoverItems())]. *)
Fixpoint discover_all (ps : list (Primitive Disk)) (fs : Disk)
  : Completion (list PrimitiveItem) :=
  match ps with
  | [] => Ok []
  | p :: ps' =>
      items ← discoverItems p fs;
      more ← discover_all ps' fs;
      Ok (items ++ more)
  end.

(** [sortByRecent(allItems, cache)] on the array [allItems]. *)
Definition sortedItems_of (allItems : list PrimitiveItem) (cache : RecentCache)
  : list PrimitiveItem :=
  let h : Heap PrimitiveItem := {[ 0%nat := allItems ]} in
  let '(sorted, h') := Cache.sortByRecent 0%nat cache h in
  default [] (h' !! sorted).

(** [main], with the handler of [main().catch] around it. *)
Definition main (args : ParsedArgs) (script : list Round) (now : Z)
  : IO Disk Outcome :=
  io_try_catch
    (if help args then mret (Exit 0)
     else if clearRecent args then
       _ ← io_try_catch (_ ← Cache.clearCache; mret ()) (fun _ => mret ());
       mret (Exit 0)
     else
       allItems ← io_read (discover_all primitives);
       if (length allItems =? 0)%nat then mret (Exit 1)
       else
         cache ← io_read Cache.loadCache;
         let sortedItems := sortedItems_of allItems cache in
         if list_flag args then mret (Exit 0)
         else orchestrate args sortedItems script now)
    (fun _ => mret (Exit 1)).

End Main.
End Main.

(* ================================================================== *)
(** * index.ts: the command line and the list mode                     *)
(* ================================================================== *)

Module Cli.

(** [arr.indexOf(x)]; [None] is -1. *)
Fixpoint indexOf (x : string) (l : list string) : option nat :=
  match l with
  | [] => None
  | y :: l' => if String.eqb y x then Some O else S <$> indexOf x l'
  end.

(** [process.env.AGENT_PRIMER_DANGEROUS === "1"]. *)
Definition DANGEROUS_MODE (env : option string) : bool :=
  match env with
  | Some v => String.eqb v "1"
  | None => false
  end.

(** The body of the loop over [flagArgs]. *)
Definition parse_flag (result : ParsedArgs) (arg : string) : ParsedArgs :=
  if String.eqb arg "--help" || String.eqb arg "-h" then
    {| help := true; clearRecent := clearRecent result;
       list_flag := list_flag result; dangerousMode := dangerousMode result;
       claudeArgs := claudeArgs result |}
  else if String.eqb arg "--clear-recent" then
    {| help := help result; clearRecent := true;
       list_flag := list_flag result; dangerousMode := dangerousMode result;
       claudeArgs := claudeArgs result |}
  else if String.eqb arg "--list" || String.eqb arg "-l" then
    {| help := help result; clearRecent := clearRecent result;
       list_flag := true; dangerousMode := dangerousMode result;
       claudeArgs := claudeArgs result |}
  else
    {| help := help result; clearRecent := clearRecent result;
       list_flag := list_flag result; dangerousMode := dangerousMode result;
       claudeArgs := claudeArgs result ++ [arg] |}.

Definition parseArgs (dangerous : bool) (argv : list string) : ParsedArgs :=
  let args := drop 2 argv in
  let result :=
    {| help := false; clearRecent := false; list_flag := false;
       dangerousMode := dangerous; claudeArgs := [] |} in
  let separator := indexOf "--" args in
  let result :=
    match separator with
    | Some i =>
        {| help := help result; clearRecent := clearRecent result;
           list_flag := list_flag result; dangerousMode := dangerousMode result;
           claudeArgs := claudeArgs result ++ drop (i + 1) args |}
    | None => result
    end in
  let flagArgs :=
    match separator with
    | None => args
    | Some i => take i args
    end in
  foldl parse_flag result flagArgs.

(** A JavaScript string is a sequence of UTF-16 code units, and [length] and
    [slice] count code units.  The strings of this development hold the
    UTF-8 bytes of the text (a surrogate that stands alone as the three bytes
    of its generalised UTF-8 form).  [code_units c] is the number of code
    units that begin at the byte [c]: one at an ASCII byte and at the first
    byte of a sequence of two or three bytes, two (a surrogate pair) at the
    first byte of a sequence of four, none at a continuation byte. *)
Definition code_units (c : ascii) : nat :=
  let b := N_of_ascii c in
  if (b <? 128)%N then 1%nat
  else if (b <? 192)%N then 0%nat
  else if (b <? 240)%N then 1%nat
  else 2%nat.

(** [s.length]. *)
Fixpoint js_length (s : string) : nat :=
  match s with
  | EmptyString => 0%nat
  | String c s' => (code_units c + js_length s')%nat
  end.

(** The byte at position [n], 0 past the end. *)
Definition byte_at (n : nat) (s : string) : N :=
  match String.get n s with
  | Some c => N_of_ascii c
  | None => 0%N
  end.

(** The high surrogate of the character whose four bytes are [c] and the
    first three of [rest]: 0xD800 + ((code point - 0x10000) >> 10), in
    generalised UTF-8.  The bits of the code point above the lowest ten are
    in the first three bytes. *)
Definition high_surrogate (c : ascii) (rest : string) : string :=
  let top := ((N_of_ascii c mod 8) * 256 + (byte_at 0 rest mod 64) * 4
              + (byte_at 1 rest mod 64) / 16)%N in
  let high := (55296 + (top - 64))%N in
  String (ascii_of_N 237)
    (String (ascii_of_N (128 + (high / 64) mod 64))
       (String (ascii_of_N (128 + high mod 64)) EmptyString)).

(** [s.slice(0, n)]: the first [n] code units of [s].  A surrogate pair cut
    in the middle leaves its high surrogate. *)
Fixpoint js_slice0 (n : nat) (s : string) : string :=
  match s with
  | EmptyString => EmptyString
  | String c s' =>
      match code_units c, n with
      | O, _ => String c (js_slice0 n s')
      | _, O => EmptyString
      | S O, S n' => String c (js_slice0 n' s')
      | S (S _), S O => high_surrogate c s'
      | S (S _), S (S n') => String c (js_slice0 n' s')
      end
  end.

(** The two lines logged for an item in list mode (the same code in both
    branches of [main]). *)
Definition item_lines (recentKeys : list string) (it : PrimitiveItem)
  : list string :=
  let isRecent := bool_decide (Cache.cacheKey it ∈ recentKeys) in
  let prefix := if isRecent then "*" else " " in
  [prefix +:+ " [" +:+ Source_to_string (source it) +:+ "] " +:+ name it;
   "    " +:+ js_slice0 70 (description it)
          +:+ (if (70 <? js_length (description it))%nat then "..." else "")].

Section Cli.
Context `{Runtime} {Disk : Type} `{FileSystem Disk}.

(** What [main] logs in list mode, message by message.  [recentKeys] is the
    set of the keys of the cache. *)
Definition list_report (allItems sortedItems : list PrimitiveItem)
    (cache : RecentCache) : list string :=
  let recentKeys := Object_keys (recent cache) in
  let hasMultipleTypes :=
    (1 <? length (remove_dups (type <$> allItems)))%nat in
  ("Found " +:+ pretty (length allItems) +:+ " primitive(s):" +:+ nl)
  :: (if hasMultipleTypes then
        mjoin
          ((fun g : string * list PrimitiveItem =>
              let lbl := match Main.find_primitive g.1 with
                         | Some p => label p
                         | None => g.1
                         end in
              ((lbl +:+ ":") :: mjoin (item_lines recentKeys <$> g.2)) ++ [""])
           <$> Map_groupBy type sortedItems)
      else mjoin (item_lines recentKeys <$> sortedItems)).

End Cli.
End Cli.

(* ================================================================== *)
(** * An in-memory file system                                         *)
(* ================================================================== *)

(** An instance of [FileSystem] on which the functions above run: a finite
    map from locations to nodes, with symbolic links followed along every
    component of a path and a permission bit per node. *)
Module MemFS.

Inductive Node : Type :=
| RegularFile (content : string) (readable writable : bool)
| Directory (writable : bool)
| SymbolicLink (target : Path).

Abbreviation t := (gmap Path Node).

(** The node at a location; the root is a writable directory. *)
Definition node_at (fs : t) (loc : Path) : option Node :=
  match loc with
  | [] => Some (Directory true)
  | _ => fs !! loc
  end.

(** Resolution of [todo] below the location [resolved]; every component
    and every link followed costs one unit of [fuel] (a cycle of links
    exhausts it, as ELOOP). *)
Fixpoint walk (fuel : nat) (fs : t) (resolved todo : Path) : option Path :=
  match todo with
  | [] => Some resolved
  | c :: rest =>
      match fuel with
      | O => None
      | S fuel' =>
          let loc := resolved ++ [c] in
          match fs !! loc with
          | Some (SymbolicLink target) => walk fuel' fs [] (target ++ rest)
          | Some (Directory _) => walk fuel' fs loc rest
          | Some (RegularFile _ _ _) =>
              match rest with
              | [] => Some loc
              | _ => None
              end
          | None => None
          end
      end
  end.

Definition realpath (fs : t) (p : Path) : option Path := walk 256 fs [] p.

(** The location a path names, its last component not followed. *)
Definition locate (fs : t) (p : Path) : option Path :=
  match p with
  | [] => Some []
  | _ => parent ← realpath fs (dirname p); Some (parent ++ [basename p])
  end.

Definition stat (fs : t) (p : Path) : option Node :=
  loc ← realpath fs p; node_at fs loc.

Definition lstat (fs : t) (p : Path) : option Node :=
  loc ← locate fs p; node_at fs loc.

Definition dir_writable (fs : t) (loc : Path) : bool :=
  match node_at fs loc with
  | Some (Directory w) => w
  | _ => false
  end.

Definition exists_ (p : Path) (fs : t) : bool :=
  bool_decide (is_Some (stat fs p)).

Definition readFile (p : Path) (fs : t) : Completion string :=
  match stat fs p with
  | Some (RegularFile content true _) => Ok content
  | Some (RegularFile _ false _) => Throw (FsError "EACCES")
  | Some _ => Throw (FsError "EISDIR")
  | None => Throw (FsError "ENOENT")
  end.

Definition is_link (n : Node) : bool :=
  match n with
  | SymbolicLink _ => true
  | _ => false
  end.

(** The children of the directory at [loc]. *)
Definition children (fs : t) (loc : Path) : list (string * Node) :=
  omap (fun kv : Path * Node =>
          if bool_decide (kv.1 ≠ [] ∧ dirname kv.1 = loc)
          then Some (basename kv.1, kv.2) else None)
       (map_to_list fs).

Definition list_dir (p : Path) (fs : t) : Completion (list (string * Node)) :=
  match realpath fs p with
  | Some loc =>
      match node_at fs loc with
      | Some (Directory _) => Ok (children fs loc)
      | _ => Throw (FsError "ENOTDIR")
      end
  | None => Throw (FsError "ENOENT")
  end.

Definition readdir_withFileTypes (p : Path) (fs : t) : Completion (list Dirent) :=
  match list_dir p fs with
  | Ok entries =>
      Ok (List.map (fun e : string * Node =>
                      {| dirent_name := e.1; isSymbolicLink := is_link e.2 |})
                   entries)
  | Throw e => Throw e
  end.

Definition readdir (p : Path) (fs : t) : Completion (list string) :=
  match list_dir p fs with
  | Ok entries => Ok (List.map fst entries)
  | Throw e => Throw e
  end.

Definition realpath_ (p : Path) (fs : t) : Completion Path :=
  match realpath fs p with
  | Some loc => Ok loc
  | None => Throw (FsError "ENOENT")
  end.

Definition stat_ (p : Path) (fs : t) : Completion (option Stats) :=
  Ok (match stat fs p with
      | Some (Directory _) => Some {| isDirectory := true |}
      | Some _ => Some {| isDirectory := false |}
      | None => None
      end).

(** [mkdir -p]: the components of [todo] below [done]. *)
Fixpoint mkdirs (fs : t) (done todo : Path) : Completion unit * t :=
  match todo with
  | [] => (Ok (), fs)
  | c :: rest =>
      let p := done ++ [c] in
      match stat fs p with
      | Some (Directory _) => mkdirs fs p rest
      | Some _ => (Throw (FsError "ENOTDIR"), fs)
      | None =>
          match locate fs p with
          | Some loc =>
              if bool_decide (fs !! loc = None) && dir_writable fs (dirname loc)
              then mkdirs (<[loc := Directory true]> fs) p rest
              else (Throw (FsError "EACCES"), fs)
          | None => (Throw (FsError "ENOENT"), fs)
          end
      end
  end.

Definition mkdir (p : Path) (fs : t) : Completion unit * t := mkdirs fs [] p.

Definition writeFile (p : Path) (data : string) (fs : t) : Completion unit * t :=
  match realpath fs p with
  | Some loc =>
      match node_at fs loc with
      | Some (RegularFile _ r true) => (Ok (), <[loc := RegularFile data r true]> fs)
      | Some (RegularFile _ _ false) => (Throw (FsError "EACCES"), fs)
      | _ => (Throw (FsError "EISDIR"), fs)
      end
  | None =>
      match locate fs p with
      | Some loc =>
          if bool_decide (fs !! loc = None) && dir_writable fs (dirname loc)
          then (Ok (), <[loc := RegularFile data true true]> fs)
          else (Throw (FsError "EACCES"), fs)
      | None => (Throw (FsError "ENOENT"), fs)
      end
  end.

Definition unlink (p : Path) (fs : t) : Completion unit * t :=
  match locate fs p with
  | Some loc =>
      match fs !! loc with
      | Some (Directory _) => (Throw (FsError "EISDIR"), fs)
      | Some _ =>
          if dir_writable fs (dirname loc) then (Ok (), delete loc fs)
          else (Throw (FsError "EACCES"), fs)
      | None => (Throw (FsError "ENOENT"), fs)
      end
  | None => (Throw (FsError "ENOENT"), fs)
  end.

#[global] Instance fileSystem : FileSystem t := {|
  existsSync := exists_;
  readFileSync := readFile;
  readdirSync_withFileTypes := readdir_withFileTypes;
  readdirSync := readdir;
  realpathSync := realpath_;
  statSync := stat_;
  mkdirSync := mkdir;
  writeFileSync := writeFile;
  unlinkSync := unlink
|}.

End MemFS.

(* ================================================================== *)
(** * A runtime to run the functions on                                *)
(* ================================================================== *)

(** An instance of [Runtime]: a parser for JSON with integer number
    literals and the two-character escapes, the matching printer, the
    comparison of strings by code unit in the place of a collation, and a
    reader of front matter made of [key: value] lines. *)
Module TestRuntime.

Definition dq : ascii := ascii_of_nat 34.
Definition backslash : ascii := ascii_of_nat 92.
Definition code (c : ascii) : Z := Z.of_nat (nat_of_ascii c).

Definition is_ws (c : ascii) : bool :=
  (code c =? 32) || (code c =? 9) || (code c =? 10) || (code c =? 13).

Fixpoint skip_ws (s : string) : string :=
  match s with
  | String c s' => if is_ws c then skip_ws s' else s
  | EmptyString => s
  end.

Definition digit_of (c : ascii) : option Z :=
  if (48 <=? code c) && (code c <=? 57) then Some (code c - 48) else None.

Fixpoint parse_digits (acc : Z) (s : string) : Z * string :=
  match s with
  | String c s' =>
      match digit_of c with
      | Some d => parse_digits (10 * acc + d) s'
      | None => (acc, s)
      end
  | EmptyString => (acc, s)
  end.

Definition starts_with_any (cs : list ascii) (s : string) : bool :=
  match s with
  | String c _ => existsb (Ascii.eqb c) cs
  | EmptyString => false
  end.

(** [0] or a digit sequence without leading zero; a fraction or an exponent
    is outside the fragment. *)
Definition parse_nat (s : string) : option (Z * string) :=
  match s with
  | String c s' =>
      match digit_of c with
      | Some d =>
          let '(n, rest) := parse_digits d s' in
          if (d =? 0) && negb (String.eqb rest s') then None
          else if starts_with_any ["."; "e"; "E"]%char rest then None
          else Some (n, rest)
      | None => None
      end
  | EmptyString => None
  end.

Definition unescape (c : ascii) : option ascii :=
  if Ascii.eqb c dq then Some dq
  else if Ascii.eqb c backslash then Some backslash
  else if Ascii.eqb c "/" then Some "/"%char
  else if Ascii.eqb c "n" then Some (ascii_of_nat 10)
  else if Ascii.eqb c "t" then Some (ascii_of_nat 9)
  else if Ascii.eqb c "r" then Some (ascii_of_nat 13)
  else None.

(** The characters after an opening quote, up to the closing one. *)
Fixpoint parse_chars (s : string) : option (string * string) :=
  match s with
  | EmptyString => None
  | String c s' =>
      if Ascii.eqb c dq then Some (EmptyString, s')
      else if Ascii.eqb c backslash then
        match s' with
        | String e s'' =>
            match unescape e, parse_chars s'' with
            | Some ch, Some (str, rest) => Some (String ch str, rest)
            | _, _ => None
            end
        | EmptyString => None
        end
      else if code c <? 32 then None
      else
        match parse_chars s' with
        | Some (str, rest) => Some (String c str, rest)
        | None => None
        end
  end.

Fixpoint strip_prefix (p s : string) : option string :=
  match p, s with
  | EmptyString, _ => Some s
  | String a p', String b s' => if Ascii.eqb a b then strip_prefix p' s' else None
  | String _ _, EmptyString => None
  end.

Fixpoint parse_value (fuel : nat) (s : string) : option (json * string) :=
  match fuel with
  | O => None
  | S fuel' =>
      match skip_ws s with
      | EmptyString => None
      | String c rest =>
          if Ascii.eqb c "n" then
            r ← strip_prefix "ull" rest; Some (JNull, r)
          else if Ascii.eqb c "t" then
            r ← strip_prefix "rue" rest; Some (JBool true, r)
          else if Ascii.eqb c "f" then
            r ← strip_prefix "alse" rest; Some (JBool false, r)
          else if Ascii.eqb c dq then
            sr ← parse_chars rest; Some (JString sr.1, sr.2)
          else if Ascii.eqb c "-" then
            nr ← parse_nat rest; Some (JNumber (- nr.1), nr.2)
          else if Ascii.eqb c "[" then
            match skip_ws rest with
            | String "]" r => Some (JArray [], r)
            | _ => vr ← parse_elements fuel' rest; Some (JArray vr.1, vr.2)
            end
          else if Ascii.eqb c "{" then
            match skip_ws rest with
            | String "}" r => Some (JObject [], r)
            | _ =>
                mr ← parse_members fuel' rest;
                Some (JObject (Object_fromEntries mr.1), mr.2)
            end
          else
            nr ← parse_nat (String c rest); Some (JNumber nr.1, nr.2)
      end
  end
with parse_elements (fuel : nat) (s : string) : option (list json * string) :=
  match fuel with
  | O => None
  | S fuel' =>
      vr ← parse_value fuel' s;
      match skip_ws vr.2 with
      | String "," r => more ← parse_elements fuel' r; Some (vr.1 :: more.1, more.2)
      | String "]" r => Some ([vr.1], r)
      | _ => None
      end
  end
with parse_members (fuel : nat) (s : string)
  : option (list (string * json) * string) :=
  match fuel with
  | O => None
  | S fuel' =>
      match skip_ws s with
      | String c rest =>
          if Ascii.eqb c dq then
            kr ← parse_chars rest;
            match skip_ws kr.2 with
            | String ":" r =>
                vr ← parse_value fuel' r;
                match skip_ws vr.2 with
                | String "," r' =>
                    more ← parse_members fuel' r';
                    Some ((kr.1, vr.1) :: more.1, more.2)
                | String "}" r' => Some ([(kr.1, vr.1)], r')
                | _ => None
                end
            | _ => None
            end
          else None
      | EmptyString => None
      end
  end.

Definition parse (s : string) : Completion json :=
  match parse_value (2 * String.length s + 2) s with
  | Some (v, rest) =>
      match skip_ws rest with
      | EmptyString => Ok v
      | _ => Throw SyntaxError
      end
  | None => Throw SyntaxError
  end.

Definition quote (s : string) : string :=
  let fix escape (s : string) : string :=
    match s with
    | EmptyString => EmptyString
    | String c s' =>
        if Ascii.eqb c dq then String backslash (String dq (escape s'))
        else if Ascii.eqb c backslash
        then String backslash (String backslash (escape s'))
        else if code c =? 10 then String backslash (String "n" (escape s'))
        else String c (escape s')
    end in
  String dq (escape s +:+ String dq EmptyString).

(** [JSON.stringify(cache, null, 2)]. *)
Definition stringify (cache : RecentCache) : string :=
  match recent cache with
  | [] => lines ["{"; "  " +:+ quote "recent" +:+ ": {}"; "}"]
  | entries =>
      lines ["{";
             "  " +:+ quote "recent" +:+ ": {";
             String.concat ("," +:+ nl)
               ((fun e : string * Z =>
                   "    " +:+ quote e.1 +:+ ": " +:+ pretty e.2) <$> entries);
             "  }";
             "}"]
  end.

(** Comparison by code unit. *)
Definition ordinalCompare (a b : string) : Z :=
  match String.compare a b with
  | Lt => -1
  | Eq => 0
  | Gt => 1
  end.

(** The lines of a text. *)
Fixpoint split_lines (s : string) : list string :=
  match s with
  | EmptyString => [EmptyString]
  | String c s' =>
      if code c =? 10 then EmptyString :: split_lines s'
      else
        match split_lines s' with
        | l :: ls => String c l :: ls
        | [] => [String c EmptyString]
        end
  end.

(** [key: value], or [key:] for a null value. *)
Fixpoint key_value (line : string) : option (string * json) :=
  match line with
  | EmptyString => None
  | String c rest =>
      if Ascii.eqb c ":" then
        match rest with
        | EmptyString => Some (EmptyString, JNull)
        | String " " v => Some (EmptyString, JString v)
        | _ => None
        end
      else
        match key_value rest with
        | Some (k, v) => Some (String c k, v)
        | None => None
        end
  end.

(** The lines of the front matter up to the closing [---], and the body. *)
Fixpoint front_matter (ls : list string)
  : option (Completion (list (string * json)) * list string) :=
  match ls with
  | [] => None
  | l :: ls' =>
      if String.eqb l "---" then Some (Ok [], ls')
      else
        match front_matter ls' with
        | None => None
        | Some (fields, body) =>
            Some (match key_value l, fields with
                  | Some kv, Ok kvs => Ok (kv :: kvs)
                  | _, _ => Throw SyntaxError
                  end, body)
        end
  end.

Definition read_matter (content : string) : Completion (json * string) :=
  match split_lines content with
  | first :: rest =>
      if String.eqb first "---" then
        match front_matter rest with
        | Some (Ok fields, body) =>
            Ok (JObject (Object_fromEntries fields), String.concat nl body)
        | Some (Throw e, _) => Throw e
        | None => Ok (JObject [], content)
        end
      else Ok (JObject [], content)
  | [] => Ok (JObject [], content)
  end.

(** The runtime of a process with the given home and working directory. *)
Definition runtime (home workdir : Path) : Runtime := {|
  JSON_parse := parse;
  JSON_stringify := stringify;
  localeCompare := ordinalCompare;
  matter := read_matter;
  homedir := home;
  cwd := workdir
|}.

End TestRuntime.
(* ================================================================== *)
(** * Notions used in the statements                                   *)
(* ================================================================== *)

(** The order a comparator induces: [a] may come before [b]. *)
Definition before {A} (cmp : A → A → Z) (a b : A) : Prop := cmp a b <= 0.

(** A consistent comparator, in the sense [Array.prototype.sort] asks for. *)
Record Consistent {A} (cmp : A → A → Z) : Prop := {
  cmp_antisym : ∀ a b, Z.sgn (cmp a b) = - Z.sgn (cmp b a);
  cmp_trans : ∀ a b c, cmp a b <= 0 → cmp b c <= 0 → cmp a c <= 0
}.

(** Timestamp descending, a missing entry counting as 0, then name
    ascending under [localeCompare]. *)
Definition recent_order `{Runtime} (cache : RecentCache) (a b : PrimitiveItem)
  : Prop :=
  let ta := default 0 (obj_get (Cache.cacheKey a) (recent cache)) in
  let tb := default 0 (obj_get (Cache.cacheKey b) (recent cache)) in
  tb < ta ∨ (ta = tb ∧ localeCompare (name a) (name b) <= 0).

(** [text] has the line [l], between two line breaks. *)
Definition has_line (l text : string) : Prop :=
  ∃ pre post, text = pre +:+ nl +:+ l +:+ nl +:+ post.

(** What an entry of a scanned directory resolves to: itself, or the real
    path of a symbolic link. *)
Definition resolved_entry `{FileSystem Disk} (dir : Path) (entry : Dirent)
    (fs : Disk) : Completion Path :=
  if isSymbolicLink entry then realpathSync (join dir (dirent_name entry)) fs
  else Ok (join dir (dirent_name entry)).

(** From the selection loop on, the file system changes only by the
    [updateCache] of a non-empty selection confirmed with yes. *)
Definition changed_by_launch_only `{Runtime} `{FileSystem Disk}
    (sortedItems : list PrimitiveItem) (script : list Main.Round) (now : Z)
    (fs fs' : Disk) : Prop :=
  fs' = fs
  ∨ ∃ selectedItems round,
      selectedItems ≠ [] ∧
      round ∈ script ∧ Main.select round = Main.Yes ∧
      Main.pickers round (Map_groupBy type sortedItems) = Some selectedItems ∧
      Main.selection_loop script sortedItems = Main.Confirmed selectedItems ∧
      fs' = (Cache.updateCache selectedItems now fs).2.

(** [stat?.isDirectory()] as a condition. *)
Definition is_directory (stat : option Stats) : bool :=
  match stat with
  | Some st => isDirectory st
  | None => false
  end.

(** [parsed.success ? parsed.data : {}] in [parseSkill] and [parseDomain]:
    the front matter that passed the schema, or the empty object. *)
Definition frontmatter_of (data : json) : SkillFrontmatter :=
  match FrontmatterSchema_safeParse data with
  | Some fm => fm
  | None => {| fm_name := None; fm_description := None |}
  end.

(** The arguments [parseArgs] consumes. *)
Definition is_help (arg : string) : bool :=
  String.eqb arg "--help" || String.eqb arg "-h".
Definition is_clear (arg : string) : bool := String.eqb arg "--clear-recent".
Definition is_list (arg : string) : bool :=
  String.eqb arg "--list" || String.eqb arg "-l".

(** The arguments [parseArgs] hands on, in their order. *)
Definition unknown_args (args : list string) : list string :=
  List.filter (fun arg => negb (is_help arg || is_clear arg || is_list arg)) args.

(** A string with a colon in it. *)
Fixpoint has_colon (s : string) : bool :=
  match s with
  | EmptyString => false
  | String c s' => Ascii.eqb c ":" || has_colon s'
  end.

(** The JSON value of a cache: what [JSON.parse] makes of the text
    [JSON.stringify] prints for it. *)
Definition json_of_cache (cache : RecentCache) : json :=
  JObject [("recent",
            JObject ((fun e : string * Z => (e.1, JNumber e.2)) <$> recent cache))].

(* ================================================================== *)
(** * Example worlds                                                   *)
(* ================================================================== *)

(** File systems and runtimes on which the functions are run below. *)
Module Example.

Definition home : Path := ["home"; "u"].
Definition project : Path := ["proj"].

(** A process started in a project directory, and one started in the home
    directory. *)
Definition in_project : Runtime := TestRuntime.runtime home project.
Definition in_home : Runtime := TestRuntime.runtime home home.

Definition dir : MemFS.Node := MemFS.Directory true.
Definition file (content : string) : MemFS.Node :=
  MemFS.RegularFile content true true.

Definition skills : Path := ["home"; "u"; ".claude"; "skills"].
Definition cache_dir : Path := ["home"; "u"; ".cache"; "agent-primer"].
Definition cache_file : Path := cache_dir ++ ["recent.json"].

(** The directories every world has. *)
Definition base : list (Path * MemFS.Node) :=
  [(["home"], dir); (["home"; "u"], dir); (["home"; "u"; ".claude"], dir);
   (skills, dir); (["proj"], dir)].

Definition world (more : list (Path * MemFS.Node)) : MemFS.t :=
  list_to_map (base ++ more).

Definition foo_md : string :=
  lines ["---"; "name: foo"; "description: bar"; "---"; "Body of foo."].

(** One skill folder [foo] under the global root. *)
Definition one_skill : MemFS.t :=
  world [(skills ++ ["foo"], dir); (skills ++ ["foo"; "SKILL.md"], file foo_md)].

(** [SKILL.md] directly in the global root, without front matter. *)
Definition skill_at_root_of_scan : MemFS.t :=
  world [(skills ++ ["SKILL.md"], file "Just text.")].

(** The item found there: it is named after the scanned directory. *)
Definition skill_in_scan_root : PrimitiveItem :=
  {| type := "skill"; name := "skills";
     description := "No description provided";
     path := skills ++ ["SKILL.md"]; source := global |}.

(** The global root holds a link [lnk] to the regular file [/x/SKILL.md]. *)
Definition link_to_skill_file : MemFS.t :=
  world [(["x"], dir); (["x"; "SKILL.md"], file foo_md);
         (skills ++ ["lnk"], MemFS.SymbolicLink ["x"; "SKILL.md"])].

(** The local root [/proj/.claude/skills] is a link to the global root. *)
Definition linked_roots : MemFS.t :=
  world [(skills ++ ["foo"], dir); (skills ++ ["foo"; "SKILL.md"], file foo_md);
         (["proj"; ".claude"], dir);
         (["proj"; ".claude"; "skills"], MemFS.SymbolicLink skills)].

(** The global root holds a link to the root of the file system, where a
    [SKILL.md] without front matter sits. *)
Definition link_to_fs_root : MemFS.t :=
  world [(["SKILL.md"], file "Just text.");
         (skills ++ ["all"], MemFS.SymbolicLink [])].

(** One domain folder [foo] under the home directory. *)
Definition domains : Path := ["home"; "u"; ".claude"; "domains"].
Definition one_domain : MemFS.t :=
  world [(domains, dir); (domains ++ ["foo"], dir);
         (domains ++ ["foo"; "DOMAIN.md"], file foo_md)].

(** Worlds with a cache file. *)
Definition with_cache_node (n : MemFS.Node) : MemFS.t :=
  world [(["home"; "u"; ".cache"], dir); (cache_dir, dir); (cache_file, n)].

Definition with_cache (content : string) : MemFS.t :=
  with_cache_node (file content).

Definition cache_unreadable : MemFS.t :=
  with_cache_node (MemFS.RegularFile "{}" false true).

(** The cache file sits in a directory that cannot be written. *)
Definition cache_locked : MemFS.t :=
  world [(["home"; "u"; ".cache"], dir); (cache_dir, MemFS.Directory false);
         (cache_file, file "{}")].

Definition not_an_object : string :=
  "{" +:+ TestRuntime.quote "recent" +:+ ": "
      +:+ TestRuntime.quote "not-an-object" +:+ "}".

Definition skill (n : string) : PrimitiveItem :=
  {| type := "skill"; name := n; description := "No description provided";
     path := skills ++ [n; "SKILL.md"]; source := global |}.

(** Nine entries, recorded at the times 1 to 9. *)
Definition nine : RecentCache :=
  {| recent := (fun i : nat =>
                  (Cache.cacheKey (skill (pretty i)), Z.of_nat i)) <$> seq 1 9 |}.

Definition with_nine : MemFS.t := with_cache (TestRuntime.stringify nine).


(** The three items of the ordering example. *)
Definition item_A : PrimitiveItem := skill "beta".
Definition item_B : PrimitiveItem := skill "gamma".
Definition item_C : PrimitiveItem := skill "alpha".
Definition cache_AC : RecentCache :=
  {| recent := [(Cache.cacheKey item_A, 5000); (Cache.cacheKey item_C, 5000)] |}.

Definition content_foo : PrimitiveContent :=
  {| item := skill "foo"; mainContent := "Body of foo.";
     metadata := [("references", JArray [])] |}.

(** A user who picks nothing and confirms. *)
Definition picks_nothing : Main.Round :=
  {| Main.multiselect := fun _ _ => Some []; Main.select := Main.Yes |}.

Definition no_flags : ParsedArgs :=
  {| help := false; clearRecent := false; list_flag := false;
     dangerousMode := false; claudeArgs := ["--model"; "opus"] |}.

End Example.

(** Further worlds, items and users. *)
Module MoreExamples.
Import Example.

(** A command line: two flags and an option before [--], two tokens after. *)
Definition argv_with_separator : list string :=
  ["bun"; "ap"; "-l"; "--model"; "opus"; "--"; "--help"; "x"].
Definition argv_without_separator : list string :=
  ["bun"; "ap"; "--clear-recent"; "-p"; "hello"].

(** No [.claude] directory anywhere. *)
Definition bare : MemFS.t :=
  list_to_map [(["home"], dir); (["home"; "u"], dir); (["proj"], dir)].

(** A regular file in the place of the global skills root. *)
Definition root_is_a_file : MemFS.t :=
  list_to_map [(["home"], dir); (["home"; "u"], dir);
               (["home"; "u"; ".claude"], dir); (skills, file "not a folder");
               (["proj"], dir)].

(** The global root holds the skill folder [foo] and a link to nowhere. *)
Definition with_dangling_link : MemFS.t :=
  world [(skills ++ ["foo"], dir); (skills ++ ["foo"; "SKILL.md"], file foo_md);
         (skills ++ ["gone"], MemFS.SymbolicLink ["nowhere"])].

(** Front matter whose name is null and whose description is a string. *)
Definition null_name_md : string :=
  lines ["---"; "name:"; "description: bar"; "---"; "Body."].
Definition with_null_name : MemFS.t :=
  world [(skills ++ ["foo"], dir);
         (skills ++ ["foo"; "SKILL.md"], file null_name_md)].

(** The skill [foo] with a [references] folder of two files. *)
Definition with_references : MemFS.t :=
  world [(skills ++ ["foo"], dir); (skills ++ ["foo"; "SKILL.md"], file foo_md);
         (skills ++ ["foo"; "references"], dir);
         (skills ++ ["foo"; "references"; "a.md"], file "A");
         (skills ++ ["foo"; "references"; "b.md"], file "B")].

(** The skill [foo] with a regular file named [references] beside it. *)
Definition references_is_a_file : MemFS.t :=
  world [(skills ++ ["foo"], dir); (skills ++ ["foo"; "SKILL.md"], file foo_md);
         (skills ++ ["foo"; "references"], file "not a folder")].

Definition foo : PrimitiveItem :=
  {| type := "skill"; name := "foo"; description := "bar";
     path := skills ++ ["foo"; "SKILL.md"]; source := global |}.

(** The same skill found under another path. *)
Definition foo_elsewhere : PrimitiveItem :=
  {| type := "skill"; name := "foo"; description := "another description";
     path := ["x"; "foo"; "SKILL.md"]; source := global |}.

Definition content_with_references : PrimitiveContent :=
  {| item := foo; mainContent := "Body of foo.";
     metadata := [("references", JArray [JString "a.md"; JString "b.md"])] |}.

(** Metadata without [references]. *)
Definition content_without_metadata : PrimitiveContent :=
  {| item := foo; mainContent := "Body of foo."; metadata := [] |}.

(** A user who picks everything offered and confirms; one who picks
    everything and starts over; one who cancels the picker. *)
Definition picks_all : Main.Round :=
  {| Main.multiselect := fun _ offered => Some offered; Main.select := Main.Yes |}.
Definition starts_over : Main.Round :=
  {| Main.multiselect := fun _ offered => Some offered; Main.select := Main.No |}.
Definition cancels_picker : Main.Round :=
  {| Main.multiselect := fun _ _ => None; Main.select := Main.Yes |}.

(** An item with a description of 80 characters, and a cache that holds its
    key with timestamp 0. *)
Definition wordy : PrimitiveItem :=
  {| type := "skill"; name := "wordy";
     description := repeat_string "0123456789" 8;
     path := skills ++ ["wordy"; "SKILL.md"]; source := global |}.
Definition cache_with_zero : RecentCache :=
  {| recent := [(Cache.cacheKey wordy, 0)] |}.

(** A regular file in the place of the local domains root, beside a skill
    that is found. *)
Definition local_domains_is_a_file : MemFS.t :=
  world [(skills ++ ["foo"], dir); (skills ++ ["foo"; "SKILL.md"], file foo_md);
         (["proj"; ".claude"], dir);
         (["proj"; ".claude"; "domains"], file "not a folder")].

(** A description of 40 accented letters: 40 code units in 80 bytes. *)
Definition accented : PrimitiveItem :=
  {| type := "skill"; name := "accented";
     description := repeat_string "é" 40;
     path := skills ++ ["accented"; "SKILL.md"]; source := global |}.

(** A description of 71 code units whose 70th and 71st are the surrogate
    pair of one character (U+1F600, four bytes). *)
Definition ends_in_pair : PrimitiveItem :=
  {| type := "skill"; name := "pair";
     description := repeat_string "0123456789" 6 +:+ "012345678" +:+ "😀";
     path := skills ++ ["pair"; "SKILL.md"]; source := global |}.

(** The high surrogate U+D83D in generalised UTF-8. *)
Definition lone_D83D : string :=
  String (ascii_of_nat 237) (String (ascii_of_nat 160)
    (String (ascii_of_nat 189) EmptyString)).

(** Flags given together. *)
Definition help_and_clear : ParsedArgs :=
  {| help := true; clearRecent := true; list_flag := false;
     dangerousMode := false; claudeArgs := [] |}.
Definition clear_and_list : ParsedArgs :=
  {| help := false; clearRecent := true; list_flag := true;
     dangerousMode := false; claudeArgs := [] |}.
Definition list_only : ParsedArgs :=
  {| help := false; clearRecent := false; list_flag := true;
     dangerousMode := false; claudeArgs := [] |}.

End MoreExamples.

(* ================================================================== *)
(** * Properties of the runtime                                        *)
(* ================================================================== *)

Section ObjectFacts.
Context {V : Type}.
Implicit Types (o : JSObject V) (k : string) (v : V).

Lemma obj_set_fresh k v o :
  k ∉ o.*1 → obj_set k v o = o ++ [(k, v)].
Proof.
  induction o as [|[k' v'] o IH]; simpl; [done|].
  intros Hk. apply not_elem_of_cons in Hk as [Hne Hk].
  destruct (String.eqb_spec k k'); [done|]. by rewrite IH.
Qed.

Lemma obj_set_keys k v o :
  (obj_set k v o).*1 = if bool_decide (k ∈ o.*1) then o.*1 else o.*1 ++ [k].
Proof.
  induction o as [|[k' v'] o IH]; [done|].
  cbn [obj_set]. destruct (String.eqb_spec k k') as [->|Hne].
  - rewrite !fmap_cons. cbn [fst]. rewrite bool_decide_eq_true_2; [done|]. by left.
  - rewrite !fmap_cons, IH. cbn [fst]. case_bool_decide as Hin.
    + rewrite bool_decide_eq_true_2; [done|]. by right.
    + rewrite bool_decide_eq_false_2; [done|].
      intros [?|?]%elem_of_cons; done.
Qed.

Lemma obj_set_NoDup k v o : NoDup o.*1 → NoDup (obj_set k v o).*1.
Proof.
  intros Hnd. rewrite obj_set_keys. case_bool_decide; [done|].
  apply NoDup_app. split_and!; [done| |apply NoDup_singleton].
  intros x Hx ->%list_elem_of_singleton. done.
Qed.

Lemma obj_set_length k v o : (length o ≤ length (obj_set k v o))%nat.
Proof.
  induction o as [|[k' v'] o IH]; simpl; [lia|].
  destruct (String.eqb k k'); simpl; lia.
Qed.

Lemma obj_get_set k k' v o :
  obj_get k' (obj_set k v o) = if String.eqb k' k then Some v else obj_get k' o.
Proof.
  induction o as [|[k0 v0] o IH]; simpl.
  - by destruct (String.eqb_spec k' k).
  - destruct (String.eqb_spec k k0) as [->|Hne]; simpl.
    + by destruct (String.eqb_spec k' k0).
    + rewrite IH. destruct (String.eqb_spec k' k0) as [->|]; [|done].
      destruct (String.eqb_spec k0 k); congruence.
Qed.

Lemma obj_get_delete k k' o :
  obj_get k' (obj_delete k o) = if String.eqb k' k then None else obj_get k' o.
Proof.
  induction o as [|[k0 v0] o IH]; simpl.
  - by destruct (String.eqb k' k).
  - destruct (String.eqb_spec k k0) as [->|Hne]; simpl.
    + rewrite IH. by destruct (String.eqb_spec k' k0).
    + rewrite IH. destruct (String.eqb_spec k' k0) as [->|]; [|done].
      destruct (String.eqb_spec k0 k); congruence.
Qed.

Lemma Object_fromEntries_go (acc es : list (string * V)) :
  NoDup (acc ++ es).*1 →
  foldl (fun o e => obj_set e.1 e.2 o) acc es = acc ++ es.
Proof.
  revert acc. induction es as [|[k v] es IH]; intros acc Hnd; simpl.
  - by rewrite app_nil_r.
  - rewrite obj_set_fresh.
    + rewrite IH; rewrite <- app_assoc; done.
    + rewrite fmap_app in Hnd. apply NoDup_app in Hnd as (_ & Hdisj & _).
      intros Hin. apply (Hdisj k Hin). simpl. by left.
Qed.

Lemma Object_fromEntries_NoDup (es : list (string * V)) :
  NoDup es.*1 → Object_fromEntries es = es.
Proof. intros Hnd. unfold Object_fromEntries. by rewrite Object_fromEntries_go. Qed.

End ObjectFacts.

Section SortFacts.
Context {A : Type} (cmp : A → A → Z).

Lemma sort_insert_perm x l : sort_insert cmp x l ≡ₚ x :: l.
Proof.
  induction l as [|y l IH]; simpl; [done|].
  destruct (cmp x y <=? 0); [done|]. rewrite IH. apply Permutation_swap.
Qed.

Lemma array_sort_perm l : array_sort cmp l ≡ₚ l.
Proof.
  induction l as [|x l IH]; simpl; [done|].
  unfold array_sort in *. simpl. by rewrite sort_insert_perm, IH.
Qed.

Lemma array_sort_length l : length (array_sort cmp l) = length l.
Proof. by rewrite array_sort_perm. Qed.

Lemma array_sort_ext (cmp' : A → A → Z) l :
  (∀ a b, cmp a b = cmp' a b) → array_sort cmp l = array_sort cmp' l.
Proof.
  intros Hext. unfold array_sort.
  induction l as [|x l IH]; simpl; [done|]. rewrite IH.
  generalize (foldr (sort_insert cmp') [] l). intros s.
  induction s as [|y s IHs]; simpl; [done|]. by rewrite Hext, IHs.
Qed.

(** Stability: the elements that satisfy [P] keep their order, when no
    element of [P] has to follow another one. *)
Lemma sort_insert_stable (P : A → Prop) `{∀ y, Decision (P y)} x l :
  (∀ y, P x → P y → cmp x y <= 0) →
  filter P (sort_insert cmp x l) = filter P (x :: l).
Proof.
  intros HP. induction l as [|y l IH]; simpl; [done|].
  destruct (Z.leb_spec (cmp x y) 0) as [Hle|Hgt]; [done|].
  rewrite (filter_cons _ y), IH, !(filter_cons _ x), (filter_cons _ y).
  destruct (decide (P x)) as [Hx|Hx], (decide (P y)) as [Hy|Hy]; try done.
  specialize (HP y Hx Hy). lia.
Qed.

Lemma array_sort_stable (P : A → Prop) `{∀ y, Decision (P y)} l :
  (∀ x y, P x → P y → cmp x y <= 0) →
  filter P (array_sort cmp l) = filter P l.
Proof.
  intros HP. unfold array_sort. induction l as [|x l IH]; simpl; [done|].
  rewrite sort_insert_stable by (intros y; apply HP).
  by rewrite !(filter_cons _ x), IH.
Qed.

Hypothesis total : ∀ a b, before cmp a b ∨ before cmp b a.
Hypothesis trans : ∀ a b c, before cmp a b → before cmp b c → before cmp a c.

Lemma sort_insert_sorted x l :
  StronglySorted (before cmp) l → StronglySorted (before cmp) (sort_insert cmp x l).
Proof.
  induction l as [|y l IH]; simpl; intros Hs.
  - repeat constructor.
  - apply StronglySorted_cons in Hs as [Hy Hl].
    destruct (Z.leb_spec (cmp x y) 0) as [Hle|Hgt].
    + apply StronglySorted_cons. split.
      * constructor; [done|]. eapply Forall_impl; [exact Hy|].
        intros z Hz. by eapply trans.
      * by apply StronglySorted_cons.
    + apply StronglySorted_cons. split; [|by apply IH].
      rewrite sort_insert_perm. constructor; [|done].
      destruct (total x y) as [H1|H1]; [unfold before in H1; lia|done].
  Qed.

Lemma array_sort_sorted l : StronglySorted (before cmp) (array_sort cmp l).
Proof.
  unfold array_sort. induction l as [|x l IH]; simpl; [constructor|].
  by apply sort_insert_sorted.
Qed.

End SortFacts.

Lemma Consistent_equivalent {A} (cmp : A → A → Z) :
  Consistent cmp → ∀ x a b, cmp x a = 0 → cmp x b = 0 → cmp a b <= 0.
Proof.
  intros [Ha Ht] x a b Hxa Hxb. apply (Ht a x b); [|lia].
  specialize (Ha a x). rewrite Hxa in Ha. simpl in Ha. lia.
Qed.

Lemma Consistent_total {A} (cmp : A → A → Z) :
  Consistent cmp → ∀ a b, before cmp a b ∨ before cmp b a.
Proof.
  intros [Ha _] a b. unfold before. specialize (Ha a b).
  destruct (Z.leb_spec (cmp a b) 0); [by left|right]. lia.
Qed.

(* ================================================================== *)
(** * The recency cache                                                *)
(* ================================================================== *)

Section CacheFacts.
Context `{Runtime} {Disk : Type} `{FileSystem Disk}.

Lemma record_of_numbers_NoDup fields out r :
  NoDup out.*1 → record_of_numbers fields out = Some r → NoDup r.*1.
Proof.
  revert out. induction fields as [|[k j] fields IH]; intros out Hnd; simpl.
  - by intros [= <-].
  - destruct j; try done. apply IH. by apply obj_set_NoDup.
Qed.

Lemma safeParse_NoDup j c :
  RecentCacheSchema_safeParse j = Some c → NoDup (recent c).*1.
Proof.
  unfold RecentCacheSchema_safeParse. destruct j as [| | | | |fields]; try done.
  destruct (obj_get "recent" fields) as [[| | | | |r]|]; try done.
  destruct (record_of_numbers r []) as [rec|] eqn:Hrec; [|done].
  intros [= <-]. simpl. eapply record_of_numbers_NoDup; [|exact Hrec].
  apply NoDup_nil_2.
Qed.

(** The outcomes of [loadCache]: the parsed data of a file that was read,
    parsed and validated, or the empty cache. *)
Lemma loadCache_cases (fs : Disk) :
  Cache.loadCache fs = Ok Cache.empty_cache ∨
  ∃ data parsed_json c,
    existsSync Cache.CACHE_FILE fs = true ∧
    readFileSync Cache.CACHE_FILE fs = Ok data ∧
    JSON_parse data = Ok parsed_json ∧
    RecentCacheSchema_safeParse parsed_json = Some c ∧
    Cache.loadCache fs = Ok c.
Proof.
  unfold Cache.loadCache.
  destruct (existsSync Cache.CACHE_FILE fs); [|by left].
  destruct (readFileSync Cache.CACHE_FILE fs) as [data|e]; [|by left].
  simpl. destruct (JSON_parse data) as [j|e] eqn:Hj; [|by left]. simpl.
  destruct (RecentCacheSchema_safeParse j) as [c|] eqn:Hc; [|by left].
  right. by exists data, j, c.
Qed.

Lemma loadCache_total (fs : Disk) : ∃ c, Cache.loadCache fs = Ok c.
Proof. destruct (loadCache_cases fs) as [?|(?&?&c&?&?&?&?&?)]; eauto. Qed.

Lemma loadCache_NoDup (fs : Disk) c :
  Cache.loadCache fs = Ok c → NoDup (recent c).*1.
Proof.
  destruct (loadCache_cases fs) as [->|(?&?&c'&?&?&?&Hc&->)]; intros [= <-].
  - apply NoDup_nil_2.
  - by eapply safeParse_NoDup.
Qed.

Lemma updateCache_record_NoDup items now c :
  NoDup (recent c).*1 → NoDup (recent (Cache.updateCache_record items now c)).*1.
Proof.
  unfold Cache.updateCache_record. revert c.
  induction items as [|x items IH]; intros c Hnd; simpl; [done|].
  apply IH. simpl. by apply obj_set_NoDup.
Qed.

Lemma updateCache_record_keeps items now c k :
  obj_get k (recent c) = Some now →
  obj_get k (recent (Cache.updateCache_record items now c)) = Some now.
Proof.
  unfold Cache.updateCache_record. revert c.
  induction items as [|x items IH]; intros c Hk; simpl; [done|].
  apply IH. simpl. rewrite obj_get_set. by destruct (String.eqb _ _).
Qed.

Lemma updateCache_record_sets items now c it :
  it ∈ items →
  obj_get (Cache.cacheKey it) (recent (Cache.updateCache_record items now c))
  = Some now.
Proof.
  revert c. induction items as [|x items IH]; intros c Hin.
  - by apply elem_of_nil in Hin.
  - apply elem_of_cons in Hin as [->|Hin].
    + change (Cache.updateCache_record (x :: items) now c)
        with (Cache.updateCache_record items now
                {| recent := obj_set (Cache.cacheKey x) now (recent c) |}).
      apply updateCache_record_keeps. simpl.
      by rewrite obj_get_set, String.eqb_refl.
    + by apply IH.
Qed.

(** Newest first: the order of the comparator of the pruning step. *)
Lemma newest_first_total (a b : string * Z) :
  before (fun a b => b.2 - a.2) a b ∨ before (fun a b => b.2 - a.2) b a.
Proof. unfold before. simpl. lia. Qed.

Lemma newest_first_trans (a b c : string * Z) :
  before (fun a b : string * Z => b.2 - a.2) a b →
  before (fun a b : string * Z => b.2 - a.2) b c →
  before (fun a b : string * Z => b.2 - a.2) a c.
Proof. unfold before. simpl. lia. Qed.

Lemma updateCache_prune_spec c :
  NoDup (recent c).*1 →
  let pruned := Cache.updateCache_prune c in
  (length (recent pruned) ≤ 10)%nat ∧
  NoDup (Object_keys (recent pruned)) ∧
  ((length (recent c) ≤ 10)%nat → pruned = c) ∧
  ((10 < length (recent c))%nat →
     length (recent pruned) = 10%nat ∧
     ∃ discarded,
       recent c ≡ₚ recent pruned ++ discarded ∧
       ∀ kept gone, kept ∈ recent pruned → gone ∈ discarded → gone.2 ≤ kept.2).
Proof.
  intros Hnd. unfold Cache.updateCache_prune, Object_entries, Object_keys,
    Cache.MAX_RECENT, slice0. simpl.
  set (sorted := array_sort (fun a b : string * Z => b.2 - a.2) (recent c)).
  assert (Hperm : sorted ≡ₚ recent c) by apply array_sort_perm.
  assert (Hsorted : StronglySorted (before (fun a b : string * Z => b.2 - a.2)) sorted)
    by (apply array_sort_sorted; [apply newest_first_total|apply newest_first_trans]).
  assert (Hnd' : NoDup (take 10 sorted).*1).
  { rewrite fmap_take. apply (sublist_NoDup _ (sorted.*1)).
    - by rewrite Hperm.
    - apply sublist_take. }
  destruct (Nat.ltb_spec 10 (length (recent c))) as [Hlt|Hge]; simpl.
  - rewrite Object_fromEntries_NoDup by done.
    assert (Hlen : length (take 10 sorted) = 10%nat).
    { rewrite length_take. unfold sorted. rewrite array_sort_length. lia. }
    split_and!; [lia|done|lia|]. intros _. split; [done|].
    exists (drop 10 sorted). split.
    + by rewrite take_drop, Hperm.
    + intros kept gone Hk Hg.
      rewrite <- (take_drop 10 sorted) in Hsorted.
      apply (StronglySorted_app_1_elem_of _ _ _ _ _ Hsorted Hk) in Hg.
      unfold before in Hg. simpl in Hg. lia.
  - split_and!; [lia|done|done|lia].
Qed.



End CacheFacts.

(* ================================================================== *)
(** * Sorting by recency                                               *)
(* ================================================================== *)

Section SortByRecentFacts.
Context `{Runtime}.

Lemma time_or_zero_default cache key :
  Cache.time_or_zero cache key = default 0 (obj_get key (recent cache)).
Proof.
  unfold Cache.time_or_zero. destruct (obj_get key (recent cache)) as [t|]; [|done].
  simpl. destruct (Z.eqb_spec t 0); congruence.
Qed.

Lemma compareRecent_before cache a b :
  before (Cache.compareRecent cache) a b ↔ recent_order cache a b.
Proof.
  unfold before, Cache.compareRecent, recent_order.
  rewrite !time_or_zero_default.
  set (ta := default 0 _). set (tb := default 0 _).
  destruct (Z.eqb_spec ta tb); simpl; lia.
Qed.

Lemma recent_order_total cache :
  Consistent localeCompare → ∀ a b, recent_order cache a b ∨ recent_order cache b a.
Proof.
  intros Hc a b. unfold recent_order.
  set (ta := default 0 _). set (tb := default 0 _).
  destruct (Consistent_total _ Hc (name a) (name b)) as [Hn|Hn];
    unfold before in Hn; lia.
Qed.

Lemma recent_order_trans cache :
  Consistent localeCompare →
  ∀ a b c, recent_order cache a b → recent_order cache b c → recent_order cache a c.
Proof.
  intros Hc a b c. unfold recent_order.
  set (ta := default 0 _). set (tb := default 0 _). set (tc := default 0 _).
  intros [?|[? Hab]] [?|[? Hbc]]; try lia.
  right. split; [lia|]. by eapply (cmp_trans _ Hc).
Qed.

Lemma compareRecent_consistent cache :
  Consistent localeCompare → Consistent (Cache.compareRecent cache).
Proof.
  intros Hc. split.
  - intros a b. unfold Cache.compareRecent.
    set (ta := Cache.time_or_zero cache (Cache.cacheKey a)).
    set (tb := Cache.time_or_zero cache (Cache.cacheKey b)).
    destruct (Z.eqb_spec ta tb) as [Heq|Hne]; simpl.
    + rewrite (proj2 (Z.eqb_eq tb ta)) by done. simpl. apply (cmp_antisym _ Hc).
    + rewrite (proj2 (Z.eqb_neq tb ta)) by done. simpl. lia.
  - intros a b c. fold (before (Cache.compareRecent cache) a b).
    fold (before (Cache.compareRecent cache) b c).
    fold (before (Cache.compareRecent cache) a c).
    rewrite !compareRecent_before. by apply recent_order_trans.
Qed.

Lemma array_sort_recent cache l :
  Consistent localeCompare →
  StronglySorted (recent_order cache) (array_sort (Cache.compareRecent cache) l).
Proof.
  intros Hc.
  assert (Hs : StronglySorted (before (Cache.compareRecent cache))
                 (array_sort (Cache.compareRecent cache) l)).
  { apply array_sort_sorted.
    - intros a b. rewrite !compareRecent_before. by apply recent_order_total.
    - intros a b c. rewrite !compareRecent_before. by apply recent_order_trans. }
  revert Hs. generalize (array_sort (Cache.compareRecent cache) l). intros s.
  induction 1 as [|x s Hs IH Hx]; constructor; [done|].
  eapply Forall_impl; [exact Hx|]. intros y. by rewrite compareRecent_before.
Qed.

(** The only ordering of three items A, B, C with A and C at 5000, B without
    entry and the name of C before that of A. *)
Lemma recent_order_example cache (A B C : PrimitiveItem) result :
  Consistent localeCompare →
  obj_get (Cache.cacheKey A) (recent cache) = Some 5000 →
  obj_get (Cache.cacheKey B) (recent cache) = None →
  obj_get (Cache.cacheKey C) (recent cache) = Some 5000 →
  localeCompare (name C) (name A) < 0 →
  result ≡ₚ [A; B; C] →
  StronglySorted (recent_order cache) result →
  result = [C; A; B].
Proof.
  intros Hc HA HB HC Hname Hperm Hsorted.
  assert (HnAC : ¬ recent_order cache A C).
  { unfold recent_order. rewrite HA, HC. simpl.
    pose proof (cmp_antisym _ Hc (name A) (name C)). lia. }
  assert (HnBA : ¬ recent_order cache B A).
  { unfold recent_order. rewrite HA, HB. simpl. lia. }
  assert (HnBC : ¬ recent_order cache B C).
  { unfold recent_order. rewrite HB, HC. simpl. lia. }
  symmetry in Hperm. apply permutations_Permutation in Hperm.
  cbv [permutations interleave mbind list_bind fmap list_fmap app] in Hperm.
  repeat (apply elem_of_cons in Hperm as [->|Hperm]);
    try (by apply elem_of_nil in Hperm); try done;
    exfalso;
    repeat match goal with
           | Hs : StronglySorted _ (_ :: _) |- _ =>
               apply StronglySorted_cons in Hs as [? ?]
           | Hf : Forall _ (_ :: _) |- _ => apply Forall_cons in Hf as [? ?]
           end; tauto.
Qed.

(** C2. [sortByRecent] leaves the array it is given as it was and returns a
    new array with the same items.  For a consistent [localeCompare], the new
    array is ordered by cached timestamp descending (no entry counting as 0),
    then by name ascending, items that compare equal keeping their order;
    for items A at 5000, B without entry and C at 5000 with its name before
    that of A, in any order, it is [C, A, B]. *)
Theorem sortByRecent_new_ordered_array
    (items : ref) (cache : RecentCache) (h : Heap PrimitiveItem)
    (elems : list PrimitiveItem) :
  h !! items = Some elems →
  ∃ result,
    let sorted := (Cache.sortByRecent items cache h).1 in
    let h' := (Cache.sortByRecent items cache h).2 in
    sorted ≠ items ∧ h !! sorted = None ∧
    h' !! items = Some elems ∧
    (∀ r, r ≠ sorted → h' !! r = h !! r) ∧
    h' !! sorted = Some result ∧
    result ≡ₚ elems ∧
    (Consistent localeCompare →
     StronglySorted (recent_order cache) result ∧
     (∀ x, filter (fun y => Cache.compareRecent cache x y = 0) result
           = filter (fun y => Cache.compareRecent cache x y = 0) elems) ∧
     (∀ A B C,
        elems ≡ₚ [A; B; C] →
        obj_get (Cache.cacheKey A) (recent cache) = Some 5000 →
        obj_get (Cache.cacheKey B) (recent cache) = None →
        obj_get (Cache.cacheKey C) (recent cache) = Some 5000 →
        localeCompare (name C) (name A) < 0 →
        result = [C; A; B])).
Proof.
  intros Hitems.
  exists (array_sort (Cache.compareRecent cache) elems).
  unfold Cache.sortByRecent, spread, sort_in_place. simpl.
  set (copy := fresh (dom h)).
  assert (Hfresh : h !! copy = None).
  { apply not_elem_of_dom. apply is_fresh. }
  assert (Hne : copy ≠ items) by congruence.
  rewrite Hitems. simpl.
  split_and!; try done.
  - by rewrite lookup_alter_ne, lookup_insert_ne.
  - intros r Hr. by rewrite lookup_alter_ne, lookup_insert_ne.
  - by rewrite lookup_alter_eq, lookup_insert_eq.
  - apply array_sort_perm.
  - intros Hc. split_and!.
    + by apply array_sort_recent.
    + intros x. apply array_sort_stable. intros a b.
      apply Consistent_equivalent. by apply compareRecent_consistent.
    + intros A B C Hperm HA HB HC Hname.
      eapply recent_order_example; eauto.
      * by rewrite array_sort_perm.
      * by apply array_sort_recent.
Qed.

Lemma compareRecent_zero_or_missing (cache cache' : RecentCache) k :
  (∀ key, key ≠ k → obj_get key (recent cache') = obj_get key (recent cache)) →
  obj_get k (recent cache) = Some 0 →
  obj_get k (recent cache') = None →
  ∀ a b, Cache.compareRecent cache a b = Cache.compareRecent cache' a b.
Proof.
  intros Hother Hk Hk' a b.
  assert (Ht : ∀ key, Cache.time_or_zero cache key = Cache.time_or_zero cache' key).
  { intros key. rewrite !time_or_zero_default.
    destruct (decide (key = k)) as [->|Hne].
    - by rewrite Hk, Hk'.
    - by rewrite Hother. }
  unfold Cache.compareRecent. by rewrite !Ht.
Qed.

Lemma sortByRecent_ext (cache cache' : RecentCache) items (h : Heap PrimitiveItem) :
  (∀ a b, Cache.compareRecent cache a b = Cache.compareRecent cache' a b) →
  Cache.sortByRecent items cache h = Cache.sortByRecent items cache' h.
Proof.
  intros Hext. unfold Cache.sortByRecent, spread, sort_in_place. simpl.
  f_equal. apply alter_ext. intros l _. by apply array_sort_ext.
Qed.

(** C9. For sorting, a key stored with timestamp 0 is the same as a key that
    is absent: [sortByRecent] returns the same array from the cache in which
    [k] is set to 0 and from the cache from which [k] is deleted, and from
    any cache that maps [k] to 0 and the same cache without [k]. *)
Theorem sortByRecent_zero_is_missing
    (items : ref) (cache : RecentCache) (k : string) (h : Heap PrimitiveItem) :
  Cache.sortByRecent items {| recent := obj_set k 0 (recent cache) |} h
  = Cache.sortByRecent items {| recent := obj_delete k (recent cache) |} h
  ∧ (obj_get k (recent cache) = Some 0 →
     Cache.sortByRecent items cache h
     = Cache.sortByRecent items {| recent := obj_delete k (recent cache) |} h).
Proof.
  split; [|intros Hk]; apply sortByRecent_ext;
    apply (compareRecent_zero_or_missing _ _ k); simpl;
    rewrite ?obj_get_set, ?obj_get_delete, ?String.eqb_refl; try done.
  - intros key Hne. rewrite obj_get_set, obj_get_delete.
    by destruct (String.eqb_spec key k).
  - intros key Hne. rewrite obj_get_delete. by destruct (String.eqb_spec key k).
Qed.

End SortByRecentFacts.

(* ================================================================== *)
(** * Failures of the cache file                                       *)
(* ================================================================== *)

Section CacheErrors.
Context `{Runtime} {Disk : Type} `{FileSystem Disk}.

(** C3. [loadCache] always returns: there is no file system, file content or
    runtime for which it throws.  It returns the empty cache when the file is
    missing, when reading it throws, when its content (the empty content for
    one) is not JSON, and when the parsed value does not match the schema, as
    the value of [{"recent": "not-an-object"}]. *)
Theorem loadCache_never_throws (fs : Disk) :
  (∃ c, Cache.loadCache fs = Ok c) ∧
  (existsSync Cache.CACHE_FILE fs = false →
   Cache.loadCache fs = Ok {| recent := [] |}) ∧
  (∀ e, readFileSync Cache.CACHE_FILE fs = Throw e →
        Cache.loadCache fs = Ok {| recent := [] |}) ∧
  (∀ data e, readFileSync Cache.CACHE_FILE fs = Ok data →
             JSON_parse data = Throw e →
             Cache.loadCache fs = Ok {| recent := [] |}) ∧
  (∀ data parsed_json,
     readFileSync Cache.CACHE_FILE fs = Ok data →
     JSON_parse data = Ok parsed_json →
     RecentCacheSchema_safeParse parsed_json = None →
     Cache.loadCache fs = Ok {| recent := [] |}) ∧
  RecentCacheSchema_safeParse
    (JObject [("recent", JString "not-an-object")]) = None.
Proof.
  split; [apply loadCache_total|].
  unfold Cache.loadCache, Cache.empty_cache.
  split_and!.
  - by intros ->.
  - intros e ->. by destruct (existsSync _ _).
  - intros data e -> Hp. destruct (existsSync _ _); [|done]. simpl. by rewrite Hp.
  - intros data j -> Hp Hs. destruct (existsSync _ _); [|done]. simpl.
    rewrite Hp. simpl. by rewrite Hs.
  - done.
Qed.

Lemma saveCache_never_throws (cache : RecentCache) (fs : Disk) :
  ∃ fs', Cache.saveCache cache fs = (Ok (), fs').
Proof.
  unfold Cache.saveCache, io_try_catch, mbind, IO_bind, mret, IO_ret.
  destruct (mkdirSync Cache.CACHE_DIR fs) as [[[]|e] fs1]; [|by eauto].
  destruct (writeFileSync _ _ fs1) as [[[]|e] fs2]; eauto.
Qed.

(** C10. [clearCache] returns [false] and leaves the file system alone when
    the cache file does not exist, returns [true] when the file exists and is
    unlinked, and throws the error of [unlinkSync] when the file exists and
    unlinking fails; [loadCache] and [saveCache] never throw.  The caller in
    [main] catches the error and exits with 0. *)
Theorem clearCache_propagates_unlink_error (fs : Disk) :
  (existsSync Cache.CACHE_FILE fs = false →
   Cache.clearCache fs = (Ok false, fs)) ∧
  (∀ fs', existsSync Cache.CACHE_FILE fs = true →
          unlinkSync Cache.CACHE_FILE fs = (Ok (), fs') →
          Cache.clearCache fs = (Ok true, fs')) ∧
  (∀ e fs', existsSync Cache.CACHE_FILE fs = true →
            unlinkSync Cache.CACHE_FILE fs = (Throw e, fs') →
            Cache.clearCache fs = (Throw e, fs')) ∧
  (∃ c, Cache.loadCache fs = Ok c) ∧
  (∀ cache, ∃ fs', Cache.saveCache cache fs = (Ok (), fs')) ∧
  (∀ args script now,
     help args = false → clearRecent args = true →
     (Main.main args script now fs).1 = Ok (Main.Exit 0)).
Proof.
  unfold Cache.clearCache, mbind, IO_bind, mret, IO_ret.
  split_and!.
  - by intros ->.
  - intros fs' -> Hu. by rewrite Hu.
  - intros e fs' -> Hu. by rewrite Hu.
  - apply loadCache_total.
  - intros cache. apply saveCache_never_throws.
  - intros args script now Hh Hc.
    unfold Main.main, io_try_catch, mbind, IO_bind, mret, IO_ret.
    rewrite Hh, Hc. unfold Cache.clearCache, mbind, IO_bind, mret, IO_ret.
    destruct (existsSync Cache.CACHE_FILE fs); [|done].
    by destruct (unlinkSync Cache.CACHE_FILE fs) as [[[]|e] fs'].
Qed.

End CacheErrors.

(* ================================================================== *)
(** * The launch step                                                  *)
(* ================================================================== *)

Section LaunchFacts.
Context `{Runtime} {Disk : Type} `{FileSystem Disk}.

Lemma launch_nothing_selected (args : ParsedArgs) (now : Z) (fs : Disk) :
  Main.launch args [] now fs
  = (Ok (Main.Spawn (Main.dangerousArgs args ++ claudeArgs args)), fs).
Proof. done. Qed.

Lemma launch_selected (args : ParsedArgs) (selectedItems : list PrimitiveItem)
    (now : Z) (fs : Disk) :
  selectedItems ≠ [] →
  (Main.launch args selectedItems now fs).2
  = (Cache.updateCache selectedItems now fs).2.
Proof.
  intros Hne. unfold Main.launch.
  destruct selectedItems as [|x l]; [done|]. simpl.
  unfold mbind, IO_bind, io_read, mret, IO_ret.
  destruct (Cache.updateCache (x :: l) now fs) as [[[]|e] fs1]; [|done].
  simpl. by destruct (Main.promptSections _ fs1).
Qed.

Lemma selection_loop_confirmed script (sortedItems selectedItems : list PrimitiveItem) :
  Main.selection_loop script sortedItems = Main.Confirmed selectedItems →
  ∃ round,
    round ∈ script ∧ Main.select round = Main.Yes ∧
    Main.pickers round (Map_groupBy type sortedItems) = Some selectedItems.
Proof.
  induction script as [|round script IH]; simpl; [done|].
  destruct (Main.pickers round _) as [picked|] eqn:Hp; [|done].
  destruct (Main.select round) eqn:Hs; try done.
  - intros [= <-]. exists round. split_and!; [by left|done|done].
  - intros Hc. destruct (IH Hc) as (r & Hin & Hy & Hpick).
    exists r. split_and!; [by right|done|done].
Qed.

Lemma orchestrate_cache_effect (args : ParsedArgs)
    (sortedItems : list PrimitiveItem) (script : list Main.Round) (now : Z)
    (fs : Disk) :
  changed_by_launch_only sortedItems script now fs
    (Main.orchestrate args sortedItems script now fs).2.
Proof.
  unfold changed_by_launch_only, Main.orchestrate.
  destruct (Main.selection_loop script sortedItems) as [sel| |] eqn:Hloop;
    [|by left|by left].
  destruct sel as [|x l]; [by left|]. right.
  destruct (selection_loop_confirmed _ _ _ Hloop) as (round & Hin & Hy & Hp).
  exists (x :: l), round. split_and!; try done. by apply launch_selected.
Qed.

Lemma main_cache_effect (args : ParsedArgs) (script : list Main.Round)
    (now : Z) (fs : Disk) :
  clearRecent args = false →
  ∃ sortedItems,
    changed_by_launch_only sortedItems script now fs
      (Main.main args script now fs).2.
Proof.
  intros Hclear. unfold Main.main.
  assert (Hcatch : ∀ m : IO Disk Main.Outcome,
    (io_try_catch m (fun _ => mret (Main.Exit 1)) fs).2 = (m fs).2).
  { intros m. unfold io_try_catch. by destruct (m fs) as [[o|e] fs']. }
  rewrite Hcatch, Hclear.
  destruct (help args); [exists []; by left|].
  unfold mbind, IO_bind, io_read.
  destruct (Main.discover_all Main.primitives fs) as [allItems|e];
    [|exists []; by left].
  destruct (length allItems =? 0)%nat; [exists []; by left|].
  destruct (Cache.loadCache fs) as [cache|e]; [|exists []; by left].
  destruct (list_flag args); [exists []; by left|].
  exists (Main.sortedItems_of allItems cache). apply orchestrate_cache_effect.
Qed.

(** C8. With nothing selected, the launch step leaves the file system as it
    is and spawns the external process with the permission flag (if any) and
    the pass-through arguments only: no [--append-system-prompt] and no
    prompt are added.  From the selection loop on, and in the whole of [main]
    when it is not asked to clear the cache, the file system changes only by
    the [updateCache] of a non-empty selection that the user confirmed with
    yes. *)
Theorem launch_without_selection_skips_cache
    (args : ParsedArgs) (sortedItems : list PrimitiveItem)
    (script : list Main.Round) (now : Z) (fs : Disk) :
  Main.launch args [] now fs
  = (Ok (Main.Spawn (Main.dangerousArgs args ++ claudeArgs args)), fs)
  ∧ (Main.selection_loop script sortedItems = Main.Confirmed [] →
     Main.orchestrate args sortedItems script now fs
     = (Ok (Main.Spawn (Main.dangerousArgs args ++ claudeArgs args)), fs))
  ∧ changed_by_launch_only sortedItems script now fs
      (Main.orchestrate args sortedItems script now fs).2
  ∧ (clearRecent args = false →
     ∃ sorted,
       changed_by_launch_only sorted script now fs
         (Main.main args script now fs).2).
Proof.
  split; [done|]. split_and!.
  - unfold Main.orchestrate. by intros ->.
  - apply orchestrate_cache_effect.
  - apply main_cache_effect.
Qed.

End LaunchFacts.

(* ================================================================== *)
(** * Discovery                                                        *)
(* ================================================================== *)

Lemma array_map_elem {A B} (f : A → Completion B) (l : list A) (ys : list B) x :
  array_map f l = Ok ys → x ∈ l → ∃ y, f x = Ok y ∧ y ∈ ys.
Proof.
  revert ys. induction l as [|a l IH]; intros ys Hm Hx.
  - by apply elem_of_nil in Hx.
  - simpl in Hm. destruct (f a) as [b|e] eqn:Hfa; [|done]. simpl in Hm.
    destruct (array_map f l) as [bs|e] eqn:Hl; [|done]. simpl in Hm.
    injection Hm as <-.
    apply elem_of_cons in Hx as [->|Hx].
    + exists b. split; [done|by left].
    + destruct (IH bs eq_refl Hx) as (y & Hy & Hin).
      exists y. split; [done|by right].
Qed.

Section DiscoveryFacts.
Context `{Runtime} {Disk : Type} `{FileSystem Disk}.

Lemma discoverPaths_elem required dir (fs : Disk) entries entry paths p :
  existsSync dir fs = true →
  readdirSync_withFileTypes dir fs = Ok entries →
  entry ∈ entries →
  Discovery.discoverPaths required dir fs = Ok paths →
  Discovery.scan_entry required dir entry fs = Ok (Some p) →
  p ∈ paths.
Proof.
  intros Hex Hrd Hin Hd Hs. unfold Discovery.discoverPaths in Hd.
  rewrite Hex, Hrd in Hd. simpl in Hd.
  destruct (array_map _ entries) as [pushed|e] eqn:Hm; [|done].
  simpl in Hd. injection Hd as <-.
  destruct (array_map_elem _ _ _ _ Hm Hin) as (y & Hy & Hyin).
  rewrite Hs in Hy. injection Hy as <-.
  unfold Discovery.pushed_paths. apply list_elem_of_omap. by exists (Some p).
Qed.

(** C4, as the code has it.  An entry of the scanned directory that resolves
    to something other than a directory is recorded when its own name is the
    required file name, under its own path in the scanned directory (for a
    link: the path of the link, whatever the name of the file it resolves
    to); under any other name it is not recorded. *)
Theorem discovery_records_entry_named_as_required
    (required : string) (dir : Path) (fs : Disk)
    (entries : list Dirent) (entry : Dirent) (realPath : Path)
    (stat : option Stats) (paths : list Path) :
  existsSync dir fs = true →
  readdirSync_withFileTypes dir fs = Ok entries →
  entry ∈ entries →
  resolved_entry dir entry fs = Ok realPath →
  statSync realPath fs = Ok stat →
  is_directory stat = false →
  Discovery.discoverPaths required dir fs = Ok paths →
  (dirent_name entry = required → join dir required ∈ paths) ∧
  (dirent_name entry ≠ required →
   Discovery.scan_entry required dir entry fs = Ok None).
Proof.
  intros Hex Hrd Hin Hres Hstat Hdir Hd.
  assert (Hscan : Discovery.scan_entry required dir entry fs
                  = if String.eqb (dirent_name entry) required
                    then Ok (Some (join dir (dirent_name entry))) else Ok None).
  { unfold Discovery.scan_entry. unfold resolved_entry in Hres.
    rewrite Hres, Hstat. simpl. unfold is_directory in Hdir. by rewrite Hdir. }
  split.
  - intros Hname. eapply discoverPaths_elem; eauto.
    rewrite Hscan, Hname, String.eqb_refl. done.
  - intros Hname. rewrite Hscan.
    by destruct (String.eqb_spec (dirent_name entry) required).
Qed.

Lemma or_else_nonempty x fallback :
  fallback ≠ "" → Discovery.or_else x fallback ≠ "".
Proof.
  intros Hf. unfold Discovery.or_else. destruct x as [s|]; [|done].
  by destruct (String.eqb_spec s "").
Qed.

Lemma or_else_blank x fallback :
  x = None ∨ x = Some "" → Discovery.or_else x fallback = fallback.
Proof. by intros [->| ->]. Qed.

Lemma or_else_value x s fallback :
  x = Some s → s ≠ "" → Discovery.or_else x fallback = s.
Proof. intros -> Hs. simpl. by destruct (String.eqb_spec s ""). Qed.

Lemma frontmatter_of_fields fields n d :
  optional_string (obj_get "name" fields) = Some n →
  optional_string (obj_get "description" fields) = Some d →
  frontmatter_of (JObject fields) = {| fm_name := n; fm_description := d |}.
Proof. intros Hn Hd. unfold frontmatter_of. simpl. by rewrite Hn, Hd. Qed.

Lemma frontmatter_of_invalid data :
  FrontmatterSchema_safeParse data = None →
  frontmatter_of data = {| fm_name := None; fm_description := None |}.
Proof. intros Hp. unfold frontmatter_of. by rewrite Hp. Qed.

(** The item built from a file that could be read and split: its name and
    description come from the front matter of that file. *)
Lemma parseItem_Some type_name p src (fs : Disk) it :
  Discovery.parseItem type_name p src fs = Some it →
  ∃ raw data body,
    readFileSync p fs = Ok raw ∧
    matter raw = Ok (data, body) ∧
    it = {| type := type_name;
            name := Discovery.or_else (fm_name (frontmatter_of data))
                                      (basename (dirname p));
            description :=
              Discovery.or_else (fm_description (frontmatter_of data))
                                "No description provided";
            path := p; source := src |}.
Proof.
  unfold Discovery.parseItem.
  destruct (readFileSync p fs) as [raw|e]; [|done]. simpl.
  destruct (matter raw) as [[data body]|e] eqn:Hm; [|done].
  intros [= <-]. by exists raw, data, body.
Qed.

Lemma parseAll_elem type_name paths src (fs : Disk) it :
  it ∈ Discovery.parseAll type_name paths src fs →
  ∃ p, p ∈ paths ∧ Discovery.parseItem type_name p src fs = Some it.
Proof. unfold Discovery.parseAll. by rewrite list_elem_of_omap. Qed.

(** The items of a run of [discoverItems] are parsed items. *)
Lemma Skill_discoverItems_elem (fs : Disk) items it :
  Skill.discoverItems fs = Ok items → it ∈ items →
  ∃ p src, Skill.parseSkill p src fs = Some it.
Proof.
  unfold Skill.discoverItems, Skill.parseSkill.
  destruct (Skill.discoverSkillPaths Skill.GLOBAL_SKILLS_DIR fs) as [gp|e]; [|done].
  simpl. case_bool_decide.
  - destruct (Skill.discoverSkillPaths Skill.LOCAL_SKILLS_DIR fs) as [lp|e]; [|done].
    simpl. intros [= <-] [Hin|Hin]%elem_of_app;
      apply parseAll_elem in Hin as (p & _ & Hp); eauto.
  - intros [= <-] Hin. apply parseAll_elem in Hin as (p & _ & Hp); eauto.
Qed.

Lemma Domain_discoverItems_elem (fs : Disk) items it :
  Domain.discoverItems fs = Ok items → it ∈ items →
  ∃ p src, Domain.parseDomain p src fs = Some it.
Proof.
  unfold Domain.discoverItems, Domain.parseDomain.
  destruct (Domain.discoverDomainPaths Domain.GLOBAL_DOMAINS_DIR fs) as [gp|e]; [|done].
  simpl.
  destruct (Domain.discoverDomainPaths Domain.LOCAL_DOMAINS_DIR fs) as [lp|e]; [|done].
  simpl. intros [= <-] [Hin|Hin]%elem_of_app;
    apply parseAll_elem in Hin as (p & _ & Hp); eauto.
Qed.

(** C6, as the code has it.  The front matter of an item is that of the
    file at its path, as [matter] splits it off and the schema accepts it
    (the empty object when the schema rejects it, so that both fields fall
    back then).  The description of a discovered item is never empty: it is
    the description of the front matter, or the placeholder when that is
    absent or empty.  The name is the name of the front matter, or the base
    name of the containing directory when that is absent or empty; it is not
    empty as long as this base name is not (the base name of the root of the
    file system is empty). *)
Theorem discovered_item_name_and_description
    (fs : Disk) (items : list PrimitiveItem) (it : PrimitiveItem) :
  Skill.discoverItems fs = Ok items ∨ Domain.discoverItems fs = Ok items →
  it ∈ items →
  description it ≠ "" ∧
  (basename (dirname (path it)) ≠ "" → name it ≠ "") ∧
  ∃ raw data body,
    readFileSync (path it) fs = Ok raw ∧
    matter raw = Ok (data, body) ∧
    let frontmatter := frontmatter_of data in
    name it = Discovery.or_else (fm_name frontmatter) (basename (dirname (path it))) ∧
    description it
    = Discovery.or_else (fm_description frontmatter) "No description provided" ∧
    (∀ s, fm_name frontmatter = Some s → s ≠ "" → name it = s) ∧
    (fm_name frontmatter = None ∨ fm_name frontmatter = Some "" →
     name it = basename (dirname (path it))) ∧
    (∀ s, fm_description frontmatter = Some s → s ≠ "" → description it = s) ∧
    (fm_description frontmatter = None ∨ fm_description frontmatter = Some "" →
     description it = "No description provided") ∧
    (∀ fields n d,
       data = JObject fields →
       optional_string (obj_get "name" fields) = Some n →
       optional_string (obj_get "description" fields) = Some d →
       fm_name frontmatter = n ∧ fm_description frontmatter = d) ∧
    (FrontmatterSchema_safeParse data = None →
     name it = basename (dirname (path it)) ∧
     description it = "No description provided").
Proof.
  intros Hd Hin.
  assert (∃ ty p src, Discovery.parseItem ty p src fs = Some it)
    as (ty & p & src & Hp).
  { destruct Hd as [Hd|Hd].
    - destruct (Skill_discoverItems_elem _ _ _ Hd Hin) as (p & src & Hp).
      by exists "skill", p, src.
    - destruct (Domain_discoverItems_elem _ _ _ Hd Hin) as (p & src & Hp).
      by exists "domain", p, src. }
  apply parseItem_Some in Hp as (raw & data & body & Hraw & Hdata & ->).
  cbn [name description path].
  split_and!.
  - by apply or_else_nonempty.
  - apply or_else_nonempty.
  - exists raw, data, body. split; [done|]. split; [done|]. cbv zeta.
    split_and!.
    + done.
    + done.
    + intros s Hs Hne. by apply or_else_value.
    + apply or_else_blank.
    + intros s Hs Hne. by apply or_else_value.
    + apply or_else_blank.
    + intros fields n d -> Hn Hdd.
      by rewrite (frontmatter_of_fields _ _ _ Hn Hdd).
    + intros Hinv. by rewrite (frontmatter_of_invalid _ Hinv).
Qed.

Lemma parseAll_source type_name paths src (fs : Disk) :
  Forall (fun it => source it = src) (Discovery.parseAll type_name paths src fs).
Proof.
  apply Forall_forall. intros it (p & _ & Hp)%parseAll_elem.
  by apply parseItem_Some in Hp as (raw & data & body & _ & _ & ->).
Qed.

(** C5, as the code has it.  When [resolve], which works on the text of a
    path and follows no link, gives the same path for the local and the
    global skills root, the local scan is skipped: the items are those of the
    global scan, all of them labelled global.  Domains scan both roots
    always, so that equal roots give every domain twice, once per label. *)
Theorem skill_local_scan_skipped_for_equal_resolved_roots (fs : Disk) :
  (resolve Skill.LOCAL_SKILLS_DIR = resolve Skill.GLOBAL_SKILLS_DIR →
   Skill.discoverItems fs
   = (globalPaths ← Skill.discoverSkillPaths Skill.GLOBAL_SKILLS_DIR fs;
      Ok (Discovery.parseAll "skill" globalPaths global fs)) ∧
   ∀ items, Skill.discoverItems fs = Ok items →
            Forall (fun it => source it = global) items) ∧
  Domain.discoverItems fs
  = (globalPaths ← Domain.discoverDomainPaths Domain.GLOBAL_DOMAINS_DIR fs;
     localPaths ← Domain.discoverDomainPaths Domain.LOCAL_DOMAINS_DIR fs;
     Ok (Discovery.parseAll "domain" globalPaths global fs
         ++ Discovery.parseAll "domain" localPaths local fs)) ∧
  (resolve Domain.LOCAL_DOMAINS_DIR = resolve Domain.GLOBAL_DOMAINS_DIR →
   ∀ paths,
     Domain.discoverDomainPaths Domain.GLOBAL_DOMAINS_DIR fs = Ok paths →
     Domain.discoverItems fs
     = Ok (Discovery.parseAll "domain" paths global fs
           ++ Discovery.parseAll "domain" paths local fs)).
Proof.
  split_and!.
  - intros Heq.
    assert (Hskip : Skill.discoverItems fs
      = (globalPaths ← Skill.discoverSkillPaths Skill.GLOBAL_SKILLS_DIR fs;
         Ok (Discovery.parseAll "skill" globalPaths global fs))).
    { unfold Skill.discoverItems. by rewrite bool_decide_eq_false_2 by tauto. }
    split; [done|]. intros items. rewrite Hskip.
    destruct (Skill.discoverSkillPaths _ fs) as [gp|e]; [|done]. simpl.
    intros [= <-]. apply parseAll_source.
  - done.
  - intros Heq paths Hp. unfold resolve in Heq.
    unfold Domain.discoverItems. rewrite Heq, Hp. done.
Qed.

End DiscoveryFacts.

(* ================================================================== *)
(** * The prompt                                                       *)
(* ================================================================== *)

Lemma string_app_assoc (a b c : string) : (a +:+ b) +:+ c = a +:+ (b +:+ c).
Proof.
  induction a as [|x a IH]; [done|].
  change (String x ((a +:+ b) +:+ c) = String x (a +:+ (b +:+ c))).
  by f_equal.
Qed.

Lemma has_line_app_l l a b : has_line l a → has_line l (a +:+ b).
Proof.
  intros (pre & post & ->). exists pre, (post +:+ b).
  by rewrite !string_app_assoc.
Qed.

Lemma has_line_app_r l a b : has_line l b → has_line l (a +:+ b).
Proof.
  intros (pre & post & ->). exists (a +:+ pre), post.
  by rewrite string_app_assoc.
Qed.

(** C7.  [formatForPrompt] is a function of the contents alone (it takes and
    returns no state); what it returns is the header, the sections and the
    footer.  For one skill content named foo without references, the text
    has the line AGENT PRIMER: ACTIVE SKILLS FOR THIS SESSION in the header,
    the line ## foo in the section and the line END AGENT PRIMER in the
    footer. *)
Theorem formatForPrompt_single_skill (c : PrimitiveContent) :
  name (item c) = "foo" →
  MetadataSchema_parse (metadata c) = Ok [] →
  ∃ section,
    Skill.section c = Ok section ∧
    Skill.formatForPrompt [c]
    = Ok (Skill.header +:+ section +:+ Skill.footer) ∧
    has_line "AGENT PRIMER: ACTIVE SKILLS FOR THIS SESSION" Skill.header ∧
    has_line "## foo" section ∧
    has_line "END AGENT PRIMER" Skill.footer ∧
    ∀ l, has_line l Skill.header ∨ has_line l section ∨ has_line l Skill.footer →
         has_line l (Skill.header +:+ section +:+ Skill.footer).
Proof.
  intros Hname Hmeta.
  assert (Hsection : Skill.section c
    = Ok (lines [""; "## foo";
                 "> Source: " +:+ to_string (dirname (path (item c)));
                 ""; mainContent c])).
  { unfold Skill.section. by rewrite Hmeta, Hname. }
  eexists. split; [exact Hsection|].
  split; [unfold Skill.formatForPrompt; simpl; by rewrite Hsection|].
  split_and!.
  - exists divider. eexists. reflexivity.
  - exists "". eexists. reflexivity.
  - exists (nl +:+ nl +:+ divider), divider. reflexivity.
  - intros l [Hl|[Hl|Hl]].
    + by apply has_line_app_l.
    + by apply has_line_app_r, has_line_app_l.
    + by do 2 apply has_line_app_r.
Qed.

(* ================================================================== *)
(** * The statements at work on the example worlds                     *)
(* ================================================================== *)

Section Runs.
Import Example.

(** The comparison by code unit is the order [String.le] of stdpp. *)
Lemma ordinalCompare_before a b :
  TestRuntime.ordinalCompare a b <= 0 ↔ String.le a b.
Proof.
  unfold TestRuntime.ordinalCompare, String.le, String.leb.
  destruct (String.compare a b); simpl; split; intros; try done; lia.
Qed.

Lemma ordinalCompare_consistent : Consistent TestRuntime.ordinalCompare.
Proof.
  split.
  - intros a b. unfold TestRuntime.ordinalCompare.
    rewrite (String.compare_antisym a b). by destruct (String.compare b a).
  - intros a b c. rewrite !ordinalCompare_before. apply transitivity.
Defined.


(** The ordering example, with the names beta, gamma and alpha. *)
Lemma sortByRecent_new_ordered_array_witness :
  let h : Heap PrimitiveItem := {[ 0%nat := [item_A; item_B; item_C] ]} in
  (@Cache.sortByRecent in_project 0%nat cache_AC h).2
    !! (@Cache.sortByRecent in_project 0%nat cache_AC h).1
  = Some [item_C; item_A; item_B].
Proof.
  intros h.
  destruct (@sortByRecent_new_ordered_array in_project 0%nat cache_AC h
              [item_A; item_B; item_C] eq_refl)
    as (result & _ & _ & _ & _ & Hresult & _ & Hordered).
  destruct (Hordered ordinalCompare_consistent) as (_ & _ & Hexample).
  rewrite Hresult. f_equal.
  apply (Hexample item_A item_B item_C); [done|reflexivity..].
Defined.

(** A stored 0 for beta sorts like no entry for beta. *)
Lemma sortByRecent_zero_is_missing_witness :
  let cache := {| recent := [(Cache.cacheKey item_A, 0);
                             (Cache.cacheKey item_C, 5000)] |} in
  let h : Heap PrimitiveItem := {[ 0%nat := [item_A; item_B; item_C] ]} in
  @Cache.sortByRecent in_project 0%nat cache h
  = @Cache.sortByRecent in_project 0%nat
      {| recent := [(Cache.cacheKey item_C, 5000)] |} h.
Proof.
  intros cache h.
  exact (proj2 (@sortByRecent_zero_is_missing in_project 0%nat cache
                  (Cache.cacheKey item_A) h) eq_refl).
Defined.

(** No cache file, an unreadable one, an empty one, one that is not JSON and
    one whose [recent] is a string: the empty cache every time. *)
Lemma loadCache_never_throws_witness :
  @Cache.loadCache in_project _ _ one_skill = Ok {| recent := [] |} ∧
  @Cache.loadCache in_project _ _ cache_unreadable = Ok {| recent := [] |} ∧
  @Cache.loadCache in_project _ _ (with_cache "") = Ok {| recent := [] |} ∧
  @Cache.loadCache in_project _ _ (with_cache "{oops") = Ok {| recent := [] |} ∧
  @Cache.loadCache in_project _ _ (with_cache not_an_object)
  = Ok {| recent := [] |}.
Proof.
  split_and!.
  - apply (@loadCache_never_throws in_project _ _ one_skill). reflexivity.
  - apply (proj1 (proj2 (proj2
      (@loadCache_never_throws in_project _ _ cache_unreadable)))
      (FsError "EACCES")). reflexivity.
  - apply (proj1 (proj2 (proj2 (proj2
      (@loadCache_never_throws in_project _ _ (with_cache "")))))
      "" SyntaxError); reflexivity.
  - apply (proj1 (proj2 (proj2 (proj2
      (@loadCache_never_throws in_project _ _ (with_cache "{oops")))))
      "{oops" SyntaxError); reflexivity.
  - apply (proj1 (proj2 (proj2 (proj2 (proj2
      (@loadCache_never_throws in_project _ _ (with_cache not_an_object))))))
      not_an_object (JObject [("recent", JString "not-an-object")]));
      reflexivity.
Defined.

(** No cache file, a cache file that can be unlinked, and one in a directory
    that cannot be written: [false], [true], and the error, which [main]
    turns into exit code 0. *)
Lemma clearCache_propagates_unlink_error_witness :
  @Cache.clearCache in_project _ _ one_skill = (Ok false, one_skill) ∧
  (@Cache.clearCache in_project _ _ with_nine).1 = Ok true ∧
  @Cache.clearCache in_project _ _ cache_locked
  = (Throw (FsError "EACCES"), cache_locked) ∧
  (@Main.main in_project _ _
     {| help := false; clearRecent := true; list_flag := false;
        dangerousMode := false; claudeArgs := [] |} [] 0 cache_locked).1
  = Ok (Main.Exit 0).
Proof.
  split_and!.
  - apply (@clearCache_propagates_unlink_error in_project _ _ one_skill).
    reflexivity.
  - rewrite (proj1 (proj2
      (@clearCache_propagates_unlink_error in_project _ _ with_nine))
      (@unlinkSync _ MemFS.fileSystem (@Cache.CACHE_FILE in_project) with_nine).2);
      reflexivity.
  - apply (@clearCache_propagates_unlink_error in_project _ _ cache_locked);
      reflexivity.
  - apply (@clearCache_propagates_unlink_error in_project _ _ cache_locked);
      reflexivity.
Defined.

(** A user who picks nothing and confirms: the file system stays as it was
    and the process gets the pass-through arguments only. *)
Lemma launch_without_selection_skips_cache_witness :
  @Main.orchestrate in_project _ _ no_flags [skill "foo"] [picks_nothing] 100
    one_skill
  = (Ok (Main.Spawn ["--model"; "opus"]), one_skill)
  ∧ ∃ sorted,
      @changed_by_launch_only in_project _ _ sorted [picks_nothing] 100 one_skill
        (@Main.main in_project _ _ no_flags [picks_nothing] 100 one_skill).2.
Proof.
  split.
  - apply (@launch_without_selection_skips_cache in_project _ _ no_flags
             [skill "foo"] [picks_nothing] 100 one_skill).
    reflexivity.
  - apply (@launch_without_selection_skips_cache in_project _ _ no_flags
             [skill "foo"] [picks_nothing] 100 one_skill).
    reflexivity.
Defined.

(** A regular file [SKILL.md] in the scanned root is recorded; the link
    [lnk] to a regular file is not. *)
Lemma discovery_records_entry_named_as_required_witness :
  (∃ paths,
     @Skill.discoverSkillPaths _ MemFS.fileSystem skills skill_at_root_of_scan
     = Ok paths ∧
     join skills "SKILL.md" ∈ paths) ∧
  @Discovery.scan_entry _ MemFS.fileSystem "SKILL.md" skills
    {| dirent_name := "lnk"; isSymbolicLink := true |} link_to_skill_file
  = Ok None.
Proof.
  split.
  - exists [skills ++ ["SKILL.md"]]. split; [reflexivity|].
    refine (proj1 (@discovery_records_entry_named_as_required _ _
      "SKILL.md" skills skill_at_root_of_scan
      [{| dirent_name := "SKILL.md"; isSymbolicLink := false |}]
      {| dirent_name := "SKILL.md"; isSymbolicLink := false |}
      (skills ++ ["SKILL.md"]) (Some {| isDirectory := false |})
      [skills ++ ["SKILL.md"]] _ _ _ _ _ _ _) _);
      try reflexivity.
    by left.
  - refine (proj2 (@discovery_records_entry_named_as_required _ _
      "SKILL.md" skills link_to_skill_file
      [{| dirent_name := "lnk"; isSymbolicLink := true |}]
      {| dirent_name := "lnk"; isSymbolicLink := true |}
      ["x"; "SKILL.md"] (Some {| isDirectory := false |})
      [] _ _ _ _ _ _ _) _);
      try reflexivity.
    + by left.
    + discriminate.
Defined.

(** C4, the claim as stated fails: the global root holds one entry, a link
    [lnk] that resolves to the regular file [/x/SKILL.md], and discovery
    records nothing. *)
Lemma link_to_required_file_not_recorded :
  let dir := @Skill.GLOBAL_SKILLS_DIR in_project in
  @readdirSync_withFileTypes _ MemFS.fileSystem dir link_to_skill_file
  = Ok [{| dirent_name := "lnk"; isSymbolicLink := true |}] ∧
  @realpathSync _ MemFS.fileSystem (join dir "lnk") link_to_skill_file
  = Ok ["x"; "SKILL.md"] ∧
  @statSync _ MemFS.fileSystem ["x"; "SKILL.md"] link_to_skill_file
  = Ok (Some {| isDirectory := false |}) ∧
  @readFileSync _ MemFS.fileSystem ["x"; "SKILL.md"] link_to_skill_file
  = Ok foo_md ∧
  basename ["x"; "SKILL.md"] = "SKILL.md" ∧
  @Skill.discoverSkillPaths _ MemFS.fileSystem dir link_to_skill_file = Ok [] ∧
  @Skill.discoverItems in_project _ _ link_to_skill_file = Ok [].
Proof. vm_compute. by repeat split. Qed.

(** Started in the home directory: one skill, labelled global; but every
    domain twice. *)
Lemma skill_local_scan_skipped_for_equal_resolved_roots_witness :
  @Skill.discoverItems in_home _ _ one_skill
  = Ok [{| type := "skill"; name := "foo"; description := "bar";
           path := skills ++ ["foo"; "SKILL.md"]; source := global |}] ∧
  Forall (fun it => source it = global)
    [{| type := "skill"; name := "foo"; description := "bar";
        path := skills ++ ["foo"; "SKILL.md"]; source := global |}] ∧
  @Domain.discoverItems in_home _ _ one_domain
  = Ok [{| type := "domain"; name := "foo"; description := "bar";
           path := domains ++ ["foo"; "DOMAIN.md"]; source := global |};
        {| type := "domain"; name := "foo"; description := "bar";
           path := domains ++ ["foo"; "DOMAIN.md"]; source := local |}].
Proof.
  split_and!.
  - rewrite (proj1 (proj1
      (@skill_local_scan_skipped_for_equal_resolved_roots in_home _ _ one_skill)
      eq_refl)). reflexivity.
  - apply (proj2 (proj1
      (@skill_local_scan_skipped_for_equal_resolved_roots in_home _ _ one_skill)
      eq_refl)). reflexivity.
  - rewrite (proj2 (proj2
      (@skill_local_scan_skipped_for_equal_resolved_roots in_home _ _ one_domain))
      eq_refl [domains ++ ["foo"; "DOMAIN.md"]]); reflexivity.
Defined.

(** C5, the claim as stated fails: the local root is a link to the global
    root, both have the same real path, and the skill is found twice. *)
Lemma same_physical_root_scanned_twice :
  @realpathSync _ MemFS.fileSystem (@Skill.LOCAL_SKILLS_DIR in_project) linked_roots
  = Ok skills ∧
  @realpathSync _ MemFS.fileSystem (@Skill.GLOBAL_SKILLS_DIR in_project) linked_roots
  = Ok skills ∧
  @Skill.discoverItems in_project _ _ linked_roots
  = Ok [{| type := "skill"; name := "foo"; description := "bar";
           path := ["home"; "u"; ".claude"; "skills"; "foo"; "SKILL.md"];
           source := global |};
        {| type := "skill"; name := "foo"; description := "bar";
           path := ["proj"; ".claude"; "skills"; "foo"; "SKILL.md"];
           source := local |}].
Proof. vm_compute. by repeat split. Qed.

(** [SKILL.md] without front matter in the scanned root: the item is named
    after the root and has the placeholder as description; its name is
    worked out from the file at its path. *)
Lemma discovered_item_name_and_description_witness :
  @Skill.discoverItems in_project _ _ skill_at_root_of_scan
  = Ok [skill_in_scan_root] ∧
  name skill_in_scan_root ≠ "" ∧ description skill_in_scan_root ≠ "" ∧
  ∃ raw data body,
    @readFileSync _ MemFS.fileSystem (path skill_in_scan_root)
      skill_at_root_of_scan = Ok raw ∧
    @matter in_project raw = Ok (data, body) ∧
    name skill_in_scan_root
    = Discovery.or_else (fm_name (frontmatter_of data))
        (basename (dirname (path skill_in_scan_root))).
Proof.
  assert (Hrun : @Skill.discoverItems in_project _ _ skill_at_root_of_scan
                 = Ok [skill_in_scan_root]) by reflexivity.
  split; [exact Hrun|].
  destruct (@discovered_item_name_and_description in_project _ _
              skill_at_root_of_scan [skill_in_scan_root] skill_in_scan_root
              (or_introl Hrun) (list_elem_of_here _ _))
    as (Hdescription & Hname & raw & data & body & Hraw & Hdata & Hfm & _).
  split; [apply Hname; discriminate|]. split; [exact Hdescription|].
  exists raw, data, body. exact (conj Hraw (conj Hdata Hfm)).
Defined.

(** C6, the claim as stated fails: a link in the global root resolves to the
    root of the file system, whose [SKILL.md] has no front matter; the item
    discovered there has the empty name. *)
Lemma item_under_fs_root_has_empty_name :
  @Skill.discoverItems in_project _ _ link_to_fs_root
  = Ok [{| type := "skill"; name := "";
           description := "No description provided";
           path := ["SKILL.md"]; source := global |}] ∧
  @realpathSync _ MemFS.fileSystem (skills ++ ["all"]) link_to_fs_root = Ok [] ∧
  basename (dirname ["SKILL.md"]) = "".
Proof. vm_compute. by repeat split. Qed.

(** The prompt of the content of foo has the three lines. *)
Lemma formatForPrompt_single_skill_witness :
  ∃ text,
    Skill.formatForPrompt [content_foo] = Ok text ∧
    has_line "AGENT PRIMER: ACTIVE SKILLS FOR THIS SESSION" text ∧
    has_line "## foo" text ∧
    has_line "END AGENT PRIMER" text.
Proof.
  destruct (formatForPrompt_single_skill content_foo eq_refl eq_refl)
    as (section & _ & Hformat & Hheader & Hsection & Hfooter & Hline).
  eexists. split; [exact Hformat|]. split_and!; apply Hline; tauto.
Defined.

End Runs.

(* ================================================================== *)
(** * The command line                                                 *)
(* ================================================================== *)

Lemma indexOf_absent x l : x ∉ l → Cli.indexOf x l = None.
Proof.
  induction l as [|y l IH]; simpl; [done|].
  intros [Hne Hin]%not_elem_of_cons.
  destruct (String.eqb_spec y x); [congruence|]. by rewrite IH.
Qed.

Lemma indexOf_first x before after :
  x ∉ before → Cli.indexOf x (before ++ x :: after) = Some (length before).
Proof.
  induction before as [|y l IH]; simpl.
  - by rewrite String.eqb_refl.
  - intros [Hne Hin]%not_elem_of_cons.
    destruct (String.eqb_spec y x); [congruence|]. by rewrite IH.
Qed.

Lemma foldl_parse_flag result args :
  foldl Cli.parse_flag result args
  = {| help := help result || existsb is_help args;
       clearRecent := clearRecent result || existsb is_clear args;
       list_flag := list_flag result || existsb is_list args;
       dangerousMode := dangerousMode result;
       claudeArgs := claudeArgs result ++ unknown_args args |}.
Proof.
  revert result. induction args as [|arg args IH]; intros result.
  - destruct result. simpl. by rewrite !orb_false_r, app_nil_r.
  - cbn [foldl]. rewrite IH. unfold Cli.parse_flag, unknown_args.
    cbn [existsb List.filter]. unfold is_help, is_clear, is_list.
    destruct (String.eqb arg "--help") eqn:E1, (String.eqb arg "-h") eqn:E2,
      (String.eqb arg "--clear-recent") eqn:E3,
      (String.eqb arg "--list") eqn:E4, (String.eqb arg "-l") eqn:E5;
      cbn; rewrite ?orb_true_r, ?orb_false_r, ?orb_assoc; try done;
      try (apply String.eqb_eq in E1; apply String.eqb_eq in E3; congruence);
      try (apply String.eqb_eq in E2; apply String.eqb_eq in E3; congruence);
      try (apply String.eqb_eq in E1; apply String.eqb_eq in E4; congruence);
      try (apply String.eqb_eq in E1; apply String.eqb_eq in E5; congruence);
      try (apply String.eqb_eq in E2; apply String.eqb_eq in E4; congruence);
      try (apply String.eqb_eq in E2; apply String.eqb_eq in E5; congruence);
      try (apply String.eqb_eq in E3; apply String.eqb_eq in E4; congruence);
      try (apply String.eqb_eq in E3; apply String.eqb_eq in E5; congruence);
      by rewrite <- app_assoc.
Qed.

(** X1. [parseArgs] in closed form.  The first [--] splits the arguments
    that follow the program name: only what is before it is looked at for
    [--help]/[-h], [--clear-recent] and [--list]/[-l]; what is after it is
    handed on untouched, and comes first in [claudeArgs]; the other arguments
    before it are handed on after that, in their order.  Without [--] all
    arguments are looked at. *)
Theorem parseArgs_closed_form (dangerous : bool) (argv : list string) :
  (∀ before after,
     drop 2 argv = before ++ "--" :: after → "--" ∉ before →
     Cli.parseArgs dangerous argv
     = {| help := existsb is_help before;
          clearRecent := existsb is_clear before;
          list_flag := existsb is_list before;
          dangerousMode := dangerous;
          claudeArgs := after ++ unknown_args before |}) ∧
  ("--" ∉ drop 2 argv →
   Cli.parseArgs dangerous argv
   = {| help := existsb is_help (drop 2 argv);
        clearRecent := existsb is_clear (drop 2 argv);
        list_flag := existsb is_list (drop 2 argv);
        dangerousMode := dangerous;
        claudeArgs := unknown_args (drop 2 argv) |}).
Proof.
  split.
  - intros before after Hargs Hsep. unfold Cli.parseArgs.
    rewrite Hargs, indexOf_first by done. rewrite foldl_parse_flag. cbn.
    rewrite take_app_length.
    replace (length before + 1)%nat with (S (length before)) by lia.
    change (before ++ "--" :: after) with (before ++ ["--"] ++ after).
    rewrite app_assoc, drop_app_length'; [done|].
    rewrite length_app. simpl. lia.
  - intros Hsep. unfold Cli.parseArgs.
    rewrite indexOf_absent by done. by rewrite foldl_parse_flag.
Qed.

(* ================================================================== *)
(** * Cache keys and the cache file                                    *)
(* ================================================================== *)

Lemma colon_split (a a' r r' : string) :
  has_colon a = false → has_colon a' = false →
  a +:+ ":" +:+ r = a' +:+ ":" +:+ r' → a = a' ∧ r = r'.
Proof.
  revert a'. induction a as [|c a IH]; intros [|c' a'] Ha Ha' Heq.
  - by injection Heq.
  - injection Heq as Hc _. simpl in Ha'. rewrite <- Hc in Ha'. done.
  - injection Heq as Hc _. simpl in Ha. rewrite Hc in Ha. done.
  - injection Heq as Hc Hrest. simpl in Ha, Ha'.
    apply orb_false_iff in Ha as [_ Ha]. apply orb_false_iff in Ha' as [_ Ha'].
    destruct (IH a' Ha Ha' Hrest) as [-> ->]. by subst.
Qed.

(** X2. Two items whose types have no colon (as "skill" and "domain") have
    the same cache key exactly when they agree on type, source and name;
    path and description play no part. *)
Theorem cacheKey_identifies_type_source_name (a b : PrimitiveItem) :
  has_colon (type a) = false → has_colon (type b) = false →
  Cache.cacheKey a = Cache.cacheKey b
  ↔ type a = type b ∧ source a = source b ∧ name a = name b.
Proof.
  intros Ha Hb. unfold Cache.cacheKey. split.
  - intros Heq. apply colon_split in Heq as [Hty Hrest]; [|done..].
    assert (source a = source b ∧ name a = name b) as [??]; [|done].
    apply colon_split in Hrest as [Hsrc Hname].
    + split; [|done]. by destruct (source a), (source b).
    + by destruct (source a).
    + by destruct (source b).
  - by intros (-> & -> & ->).
Qed.

Section CacheRoundTrip.
Context `{Runtime} {Disk : Type} `{FileSystem Disk}.

Lemma record_of_numbers_fresh (es out : JSObject Z) :
  NoDup (out ++ es).*1 →
  record_of_numbers ((fun e : string * Z => (e.1, JNumber e.2)) <$> es) out
  = Some (out ++ es).
Proof.
  revert out. induction es as [|[k v] es IH]; intros out Hnd.
  - by rewrite app_nil_r.
  - rewrite fmap_cons. cbn [record_of_numbers fst snd].
    rewrite obj_set_fresh.
    + rewrite IH; rewrite <- app_assoc; done.
    + rewrite fmap_app in Hnd. apply NoDup_app in Hnd as (_ & Hdisj & _).
      intros Hin. apply (Hdisj k Hin). rewrite fmap_cons. by left.
Qed.

Lemma safeParse_json_of_cache (cache : RecentCache) :
  NoDup (Object_keys (recent cache)) →
  RecentCacheSchema_safeParse (json_of_cache cache) = Some cache.
Proof.
  intros Hnd. unfold RecentCacheSchema_safeParse, json_of_cache. simpl.
  rewrite (record_of_numbers_fresh (recent cache) []) by done.
  by destruct cache.
Qed.

(** X3. Saving and loading again.  When the directory can be made and the
    file written, the file system gives back on reading what was written,
    and [JSON.parse] undoes [JSON.stringify], then [saveCache] followed by
    [loadCache] returns the cache that was saved: the schema accepts every
    cache and hands it back entry for entry. *)
Theorem saveCache_then_loadCache (cache : RecentCache) (fs fs1 fs2 : Disk) :
  NoDup (Object_keys (recent cache)) →
  mkdirSync Cache.CACHE_DIR fs = (Ok (), fs1) →
  writeFileSync Cache.CACHE_FILE (JSON_stringify cache) fs1 = (Ok (), fs2) →
  existsSync Cache.CACHE_FILE fs2 = true →
  readFileSync Cache.CACHE_FILE fs2 = Ok (JSON_stringify cache) →
  JSON_parse (JSON_stringify cache) = Ok (json_of_cache cache) →
  Cache.saveCache cache fs = (Ok (), fs2) ∧
  Cache.loadCache fs2 = Ok cache ∧
  RecentCacheSchema_safeParse (json_of_cache cache) = Some cache.
Proof.
  intros Hnd Hmk Hwr Hex Hrd Hjson. split_and!.
  - unfold Cache.saveCache, io_try_catch, mbind, IO_bind.
    by rewrite Hmk, Hwr.
  - pose proof (safeParse_json_of_cache cache Hnd) as Hs.
    unfold Cache.loadCache, try_catch. rewrite Hex, Hrd.
    unfold mbind, Completion_bind. rewrite Hjson. by rewrite Hs.
  - by apply safeParse_json_of_cache.
Qed.

End CacheRoundTrip.

(* ================================================================== *)
(** * The cache and the next ordering                                  *)
(* ================================================================== *)

Lemma obj_get_Some_elem {V} (o : JSObject V) k v :
  obj_get k o = Some v → (k, v) ∈ o.
Proof.
  induction o as [|[k' v'] o IH]; simpl; [done|].
  destruct (String.eqb_spec k k') as [->|Hne].
  - intros [= ->]. by left.
  - intros Hg. right. by apply IH.
Qed.

Lemma obj_get_elem_NoDup {V} (o : JSObject V) k v :
  NoDup o.*1 → (k, v) ∈ o → obj_get k o = Some v.
Proof.
  induction o as [|[k' v'] o IH]; intros Hnd Hin.
  - by apply elem_of_nil in Hin.
  - rewrite fmap_cons in Hnd. apply NoDup_cons in Hnd as [Hk' Hnd].
    apply elem_of_cons in Hin as [[= -> ->]|Hin]; simpl.
    + by rewrite String.eqb_refl.
    + destruct (String.eqb_spec k k') as [->|Hne]; [|by apply IH].
      exfalso. apply Hk'. apply list_elem_of_fmap. by exists (k', v).
Qed.

Section NextOrdering.
Context `{Runtime}.

Lemma updateCache_record_get items now c k :
  obj_get k (recent (Cache.updateCache_record items now c))
  = if bool_decide (k ∈ Cache.cacheKey <$> items) then Some now
    else obj_get k (recent c).
Proof.
  unfold Cache.updateCache_record. revert c.
  induction items as [|x items IH]; intros c.
  - cbn [foldl]. case_bool_decide as Hk; [|done]. rewrite fmap_nil in Hk.
    by apply elem_of_nil in Hk.
  - cbn [foldl]. rewrite IH. cbn [recent]. rewrite obj_get_set, fmap_cons.
    destruct (decide (k ∈ Cache.cacheKey <$> items)) as [Hin|Hin].
    + rewrite !bool_decide_eq_true_2; [done|by right|done].
    + rewrite (bool_decide_eq_false_2 _ Hin).
      destruct (String.eqb_spec k (Cache.cacheKey x)) as [->|Hne].
      * rewrite bool_decide_eq_true_2; [done|by left].
      * rewrite bool_decide_eq_false_2; [done|].
        intros [?|?]%elem_of_cons; done.
Qed.

(** X4. What [updateCache] saves puts the items just selected first in the
    next ordering.  If the clock is past every timestamp of the loaded cache
    and at most 10 items are given, then under the saved cache every given
    item compares before every item whose key was not given (and never after
    it), so that [sortByRecent] lists the given items first. *)
Theorem selected_items_sort_first {Disk : Type} `{FileSystem Disk}
    (items : list PrimitiveItem) (now : Z) (fs : Disk) (loaded : RecentCache)
    (a b : PrimitiveItem) :
  Cache.loadCache fs = Ok loaded →
  0 < now →
  (∀ e, e ∈ recent loaded → e.2 < now) →
  (length items ≤ 10)%nat →
  a ∈ items →
  Cache.cacheKey b ∉ Cache.cacheKey <$> items →
  let saved := Cache.updateCache_prune (Cache.updateCache_record items now loaded) in
  obj_get (Cache.cacheKey a) (recent saved) = Some now ∧
  Cache.compareRecent saved a b < 0 ∧
  0 < Cache.compareRecent saved b a.
Proof.
  intros Hload Hnow Hold Hlen Ha Hb saved.
  set (recorded := Cache.updateCache_record items now loaded) in *.
  assert (Hnd : NoDup (recent recorded).*1).
  { apply updateCache_record_NoDup. by eapply loadCache_NoDup. }
  destruct (updateCache_prune_spec recorded Hnd) as (_ & Hnd' & Hfew & Hmany).
  fold saved in Hnd', Hfew, Hmany. unfold Object_keys in Hnd'.
  (* every recorded entry is a given key at [now], or an older entry *)
  assert (Hentry : ∀ k t, (k, t) ∈ recent recorded →
            (t = now ∧ k ∈ Cache.cacheKey <$> items)
            ∨ (t < now ∧ k ∉ Cache.cacheKey <$> items)).
  { intros k t Hin. apply (obj_get_elem_NoDup _ _ _ Hnd) in Hin.
    unfold recorded in Hin. rewrite updateCache_record_get in Hin.
    case_bool_decide as Hk.
    - left. by injection Hin as <-.
    - right. split; [|done]. apply obj_get_Some_elem in Hin.
      apply (Hold _ Hin). }
  assert (Hsub : ∀ e, e ∈ recent saved → e ∈ recent recorded).
  { destruct (le_lt_dec (length (recent recorded)) 10) as [Hle|Hgt].
    - by rewrite (Hfew Hle).
    - destruct (Hmany Hgt) as (_ & discarded & Hperm & _).
      intros e He. rewrite Hperm. apply elem_of_app. by left. }
  assert (Hin_recorded : (Cache.cacheKey a, now) ∈ recent recorded).
  { apply obj_get_Some_elem. unfold recorded.
    by apply updateCache_record_sets. }
  assert (Hkept : (Cache.cacheKey a, now) ∈ recent saved).
  { destruct (le_lt_dec (length (recent recorded)) 10) as [Hle|Hgt].
    - by rewrite (Hfew Hle).
    - destruct (Hmany Hgt) as (Hten & discarded & Hperm & Horder).
      rewrite Hperm in Hin_recorded.
      apply elem_of_app in Hin_recorded as [?|Hgone]; [done|]. exfalso.
      assert (Hkeys : ∀ k, k ∈ (recent saved).*1 → k ∈ Cache.cacheKey <$> items).
      { intros k ([k' t] & -> & Hkt)%list_elem_of_fmap. simpl.
        specialize (Horder _ _ Hkt Hgone). simpl in Horder.
        destruct (Hentry k' t (Hsub _ Hkt)) as [[_ ?]|[? _]]; [done|lia]. }
      assert (Hfresh : Cache.cacheKey a ∉ (recent saved).*1).
      { rewrite Hperm, fmap_app in Hnd.
        apply NoDup_app in Hnd as (_ & Hdisj & _).
        intros Hin. apply (Hdisj _ Hin).
        apply list_elem_of_fmap. by exists (Cache.cacheKey a, now). }
      assert (Hall : Cache.cacheKey a :: (recent saved).*1
                     ⊆+ Cache.cacheKey <$> items).
      { apply NoDup_submseteq.
        - by apply NoDup_cons.
        - intros k [->|Hk]%elem_of_cons; [|by apply Hkeys].
          apply list_elem_of_fmap. by exists a. }
      apply submseteq_length in Hall.
      rewrite length_cons, !length_fmap, Hten in Hall. lia. }
  assert (Hta : obj_get (Cache.cacheKey a) (recent saved) = Some now)
    by by apply obj_get_elem_NoDup.
  assert (Htb : Cache.time_or_zero saved (Cache.cacheKey b) < now).
  { unfold Cache.time_or_zero.
    destruct (obj_get (Cache.cacheKey b) (recent saved)) as [t|] eqn:Hgb; [|done].
    apply obj_get_Some_elem, Hsub in Hgb.
    destruct (Hentry _ _ Hgb) as [[_ ?]|[? _]]; [done|].
    destruct (Z.eqb_spec t 0); lia. }
  assert (Htime : Cache.time_or_zero saved (Cache.cacheKey a) = now).
  { unfold Cache.time_or_zero. rewrite Hta. destruct (Z.eqb_spec now 0); lia. }
  split; [done|]. unfold Cache.compareRecent. rewrite Htime.
  set (tb := Cache.time_or_zero saved (Cache.cacheKey b)) in *.
  rewrite (proj2 (Z.eqb_neq now tb)) by lia.
  rewrite (proj2 (Z.eqb_neq tb now)) by lia. simpl. lia.
Qed.

Lemma array_sort_fixed {A} (cmp : A → A → Z) l :
  StronglySorted (before cmp) l → array_sort cmp l = l.
Proof.
  unfold array_sort. induction 1 as [|x l Hs IH Hx]; simpl; [done|].
  rewrite IH. destruct l as [|y l]; [done|]. simpl.
  apply Forall_cons in Hx as [Hxy _]. unfold before in Hxy.
  by rewrite (proj2 (Z.leb_le _ _) Hxy).
Qed.

(** X5. Sorting what is sorted changes nothing: for a consistent
    [localeCompare], [sortByRecent] applied to the array it returned gives a
    further new array with the same items in the same order. *)
Theorem sortByRecent_idempotent
    (items : ref) (cache : RecentCache) (h : Heap PrimitiveItem)
    (elems : list PrimitiveItem) :
  Consistent localeCompare →
  h !! items = Some elems →
  let first := Cache.sortByRecent items cache h in
  let second := Cache.sortByRecent first.1 cache first.2 in
  second.1 ≠ first.1 ∧
  second.2 !! second.1 = first.2 !! first.1 ∧
  second.2 !! first.1 = first.2 !! first.1.
Proof.
  intros Hc Hitems first second.
  set (sorted := array_sort (Cache.compareRecent cache) elems).
  destruct first as [r1 h1] eqn:Hfirst_eq.
  assert (Hfirst : h1 !! r1 = Some sorted).
  { unfold first, Cache.sortByRecent, spread, sort_in_place in Hfirst_eq.
    injection Hfirst_eq as <- <-.
    by rewrite lookup_alter_eq, lookup_insert_eq, Hitems. }
  assert (Hfix : array_sort (Cache.compareRecent cache) sorted = sorted).
  { apply array_sort_fixed, array_sort_sorted.
    - apply Consistent_total. by apply compareRecent_consistent.
    - intros x y z. apply (cmp_trans _ (compareRecent_consistent cache Hc)). }
  clear Hfirst_eq. subst second.
  unfold Cache.sortByRecent, spread, sort_in_place. cbn [fst snd].
  set (copy := fresh (dom h1)).
  assert (Hfresh : h1 !! copy = None).
  { apply not_elem_of_dom. apply is_fresh. }
  assert (Hne : copy ≠ r1) by congruence.
  split_and!; [done| |].
  - rewrite lookup_alter_eq, lookup_insert_eq, Hfirst. simpl. by rewrite Hfix.
  - by rewrite lookup_alter_ne, lookup_insert_ne.
Qed.

End NextOrdering.

(* ================================================================== *)
(** * More on discovery                                                *)
(* ================================================================== *)

Lemma array_map_elem_inv {A B} (f : A → Completion B) (l : list A) (ys : list B) y :
  array_map f l = Ok ys → y ∈ ys → ∃ x, x ∈ l ∧ f x = Ok y.
Proof.
  revert ys. induction l as [|a l IH]; intros ys Hm Hy; simpl in Hm.
  - injection Hm as <-. by apply elem_of_nil in Hy.
  - destruct (f a) as [b|e] eqn:Hfa; [|done]. simpl in Hm.
    destruct (array_map f l) as [bs|e] eqn:Hl; [|done]. simpl in Hm.
    injection Hm as <-. apply elem_of_cons in Hy as [->|Hy].
    + exists a. split; [by left|done].
    + destruct (IH bs eq_refl Hy) as (x & Hx & Hfx).
      exists x. split; [by right|done].
Qed.

Lemma array_map_app {A B} (f : A → Completion B) (l1 l2 : list A) :
  array_map f (l1 ++ l2)
  = (ys1 ← array_map f l1; ys2 ← array_map f l2; Ok (ys1 ++ ys2)).
Proof.
  induction l1 as [|a l1 IH]; simpl.
  - by destruct (array_map f l2).
  - destruct (f a) as [b|e]; [|done]. simpl. rewrite IH.
    destruct (array_map f l1) as [bs|e]; [|done]. simpl.
    by destruct (array_map f l2).
Qed.

Lemma basename_join dir n : basename (join dir n) = n.
Proof. unfold basename, join. apply last_last. Qed.

Lemma dirname_join dir n : dirname (join dir n) = dir.
Proof. unfold dirname, join. apply removelast_last. Qed.

Section MoreDiscovery.
Context `{Runtime} {Disk : Type} `{FileSystem Disk}.

Lemma scan_entry_Some required dir entry (fs : Disk) p :
  Discovery.scan_entry required dir entry fs = Ok (Some p) →
  basename p = required ∧
  (existsSync p fs = true ∨ p = join dir required).
Proof.
  unfold Discovery.scan_entry.
  destruct (if isSymbolicLink entry then _ else _) as [realPath|e]; [|done].
  destruct (statSync realPath fs) as [stat|e]; [|done]. simpl.
  destruct (match stat with Some st => isDirectory st | None => false end).
  - destruct (existsSync (join realPath required) fs) eqn:Hex; [|done].
    intros [= <-]. split; [apply basename_join|by left].
  - destruct (String.eqb_spec (dirent_name entry) required) as [Hn|]; [|done].
    intros [= <-]. rewrite Hn. split; [apply basename_join|by right].
Qed.

Lemma discoverPaths_basename required dir (fs : Disk) paths p :
  Discovery.discoverPaths required dir fs = Ok paths → p ∈ paths →
  basename p = required.
Proof.
  unfold Discovery.discoverPaths.
  destruct (existsSync dir fs); simpl.
  - destruct (readdirSync_withFileTypes dir fs) as [entries|e]; [|done]. simpl.
    destruct (array_map _ entries) as [pushed|e] eqn:Hm; [|done]. simpl.
    intros [= <-] Hp. unfold Discovery.pushed_paths in Hp.
    apply list_elem_of_omap in Hp as (o & Ho & Hid). simpl in Hid. subst o.
    destruct (array_map_elem_inv _ _ _ _ Hm Ho) as (entry & _ & Hscan).
    by apply scan_entry_Some in Hscan as [? _].
  - intros [= <-] Hp. by apply elem_of_nil in Hp.
Qed.

Lemma parseItem_read type_name p src (fs : Disk) it :
  Discovery.parseItem type_name p src fs = Some it →
  type it = type_name ∧ path it = p ∧ source it = src ∧
  ∃ content, readFileSync p fs = Ok content.
Proof.
  unfold Discovery.parseItem.
  destruct (readFileSync p fs) as [content|e]; [|done]. simpl.
  destruct (matter content) as [[data body]|e]; [|done].
  intros [= <-]. simpl. eauto.
Qed.

Lemma parseAll_item type_name required dir paths src (fs : Disk) it :
  Discovery.discoverPaths required dir fs = Ok paths →
  it ∈ Discovery.parseAll type_name paths src fs →
  type it = type_name ∧ source it = src ∧ basename (path it) = required ∧
  ∃ content, readFileSync (path it) fs = Ok content.
Proof.
  intros Hd (p & Hp & Hparse)%parseAll_elem.
  apply parseItem_read in Hparse as (? & -> & ? & ?).
  split_and!; try done. by eapply discoverPaths_basename.
Qed.

(** X6. Every item that discovery returns carries the type of its
    primitive and the path of a file named [SKILL.md] (respectively
    [DOMAIN.md]) that could be read during discovery; a skill labelled local
    is only returned when the two skill roots resolve to different paths. *)
Theorem discovered_item_type_and_path
    (fs : Disk) (items : list PrimitiveItem) (it : PrimitiveItem) :
  (Skill.discoverItems fs = Ok items → it ∈ items →
   type it = "skill" ∧ basename (path it) = "SKILL.md" ∧
   (∃ content, readFileSync (path it) fs = Ok content) ∧
   (source it = local →
    resolve Skill.LOCAL_SKILLS_DIR ≠ resolve Skill.GLOBAL_SKILLS_DIR)) ∧
  (Domain.discoverItems fs = Ok items → it ∈ items →
   type it = "domain" ∧ basename (path it) = "DOMAIN.md" ∧
   ∃ content, readFileSync (path it) fs = Ok content).
Proof.
  split.
  - unfold Skill.discoverItems, Skill.discoverSkillPaths.
    destruct (Discovery.discoverPaths "SKILL.md" Skill.GLOBAL_SKILLS_DIR fs)
      as [gp|e] eqn:Hg; [|done]. simpl.
    case_bool_decide as Hres.
    + destruct (Discovery.discoverPaths "SKILL.md" Skill.LOCAL_SKILLS_DIR fs)
        as [lp|e] eqn:Hl; [|done]. simpl.
      intros [= <-] [Hin|Hin]%elem_of_app.
      * destruct (parseAll_item _ _ _ _ _ _ _ Hg Hin) as (?&?&?&?). done.
      * destruct (parseAll_item _ _ _ _ _ _ _ Hl Hin) as (?&?&?&?). done.
    + intros [= <-] Hin.
      destruct (parseAll_item _ _ _ _ _ _ _ Hg Hin) as (?&Hsrc&?&?).
      split_and!; try done. intros Hlocal. congruence.
  - unfold Domain.discoverItems, Domain.discoverDomainPaths.
    destruct (Discovery.discoverPaths "DOMAIN.md" Domain.GLOBAL_DOMAINS_DIR fs)
      as [gp|e] eqn:Hg; [|done]. simpl.
    destruct (Discovery.discoverPaths "DOMAIN.md" Domain.LOCAL_DOMAINS_DIR fs)
      as [lp|e] eqn:Hl; [|done]. simpl.
    intros [= <-] [Hin|Hin]%elem_of_app.
    + destruct (parseAll_item _ _ _ _ _ _ _ Hg Hin) as (?&?&?&?). done.
    + destruct (parseAll_item _ _ _ _ _ _ _ Hl Hin) as (?&?&?&?). done.
Qed.

(** X7. A symbolic link that cannot be resolved is passed over and the scan
    goes on: the paths found are those found among the other entries, before
    and after it. *)
Theorem dangling_link_is_skipped
    (required : string) (dir : Path) (fs : Disk)
    (earlier later : list Dirent) (entry : Dirent) (e : Error) :
  existsSync dir fs = true →
  readdirSync_withFileTypes dir fs = Ok (earlier ++ entry :: later) →
  isSymbolicLink entry = true →
  realpathSync (join dir (dirent_name entry)) fs = Throw e →
  Discovery.scan_entry required dir entry fs = Ok None ∧
  Discovery.discoverPaths required dir fs
  = (pushed ← array_map (fun en => Discovery.scan_entry required dir en fs)
                        (earlier ++ later);
     Ok (Discovery.pushed_paths pushed)).
Proof.
  intros Hex Hrd Hlink Hreal.
  assert (Hscan : Discovery.scan_entry required dir entry fs = Ok None).
  { unfold Discovery.scan_entry. by rewrite Hlink, Hreal. }
  split; [done|]. unfold Discovery.discoverPaths. rewrite Hex, Hrd. simpl.
  rewrite !array_map_app. simpl. rewrite Hscan. simpl.
  destruct (array_map _ earlier) as [p1|?]; [|done]. simpl.
  destruct (array_map _ later) as [p2|?]; [|done]. simpl.
  unfold Discovery.pushed_paths. by rewrite !omap_app.
Qed.

Lemma discoverPaths_missing required dir (fs : Disk) :
  existsSync dir fs = false → Discovery.discoverPaths required dir fs = Ok [].
Proof. intros Hex. unfold Discovery.discoverPaths. by rewrite Hex. Qed.

(** X8. When none of the four roots exists, both primitives discover no
    item, and [main] (not asked for help or to clear the cache) exits with
    code 1 whatever the other flags and the answers of the user, leaving the
    file system as it is. *)
Theorem no_roots_exit_one
    (args : ParsedArgs) (script : list Main.Round) (now : Z) (fs : Disk) :
  existsSync Skill.GLOBAL_SKILLS_DIR fs = false →
  existsSync Skill.LOCAL_SKILLS_DIR fs = false →
  existsSync Domain.GLOBAL_DOMAINS_DIR fs = false →
  existsSync Domain.LOCAL_DOMAINS_DIR fs = false →
  Skill.discoverItems fs = Ok [] ∧
  Domain.discoverItems fs = Ok [] ∧
  (help args = false → clearRecent args = false →
   Main.main args script now fs = (Ok (Main.Exit 1), fs)).
Proof.
  intros Hsg Hsl Hdg Hdl.
  assert (Hs : Skill.discoverItems fs = Ok []).
  { unfold Skill.discoverItems, Skill.discoverSkillPaths.
    rewrite !discoverPaths_missing by done. simpl. by case_bool_decide. }
  assert (Hd : Domain.discoverItems fs = Ok []).
  { unfold Domain.discoverItems, Domain.discoverDomainPaths.
    by rewrite !discoverPaths_missing by done. }
  split_and!; [done|done|]. intros Hhelp Hclear.
  unfold Main.main, io_try_catch, mbind, IO_bind, io_read.
  rewrite Hhelp, Hclear. unfold Main.primitives. cbn [Main.discover_all discoverItems
    Skill.SkillPrimitive Domain.DomainPrimitive].
  by rewrite Hs, Hd.
Qed.

Lemma discoverPaths_unlistable required dir (fs : Disk) e :
  existsSync dir fs = true →
  readdirSync_withFileTypes dir fs = Throw e →
  Discovery.discoverPaths required dir fs = Throw e.
Proof. intros Hex Hrd. unfold Discovery.discoverPaths. by rewrite Hex, Hrd. Qed.

(** X9. A root that exists but cannot be listed (a regular file in its
    place, say) is not passed over, whichever of the four roots it is: the
    exception of [readdirSync] leaves [discoverItems] of its primitive
    (unless the scan of the global root, which comes first, has thrown
    already), nothing is discovered, and [main] ends with exit code 1
    through its top-level handler, the file system untouched. *)
Theorem unlistable_root_is_fatal
    (args : ParsedArgs) (script : list Main.Round) (now : Z) (fs : Disk)
    (root : Path) (e : Error) :
  root ∈ [Skill.GLOBAL_SKILLS_DIR; Skill.LOCAL_SKILLS_DIR;
          Domain.GLOBAL_DOMAINS_DIR; Domain.LOCAL_DOMAINS_DIR] →
  existsSync root fs = true →
  readdirSync_withFileTypes root fs = Throw e →
  (root = Skill.GLOBAL_SKILLS_DIR → Skill.discoverItems fs = Throw e) ∧
  (root = Skill.LOCAL_SKILLS_DIR →
   Skill.discoverItems fs = Throw e ∨
   ∃ e', Skill.discoverSkillPaths Skill.GLOBAL_SKILLS_DIR fs = Throw e' ∧
         Skill.discoverItems fs = Throw e') ∧
  (root = Domain.GLOBAL_DOMAINS_DIR → Domain.discoverItems fs = Throw e) ∧
  (root = Domain.LOCAL_DOMAINS_DIR →
   Domain.discoverItems fs = Throw e ∨
   ∃ e', Domain.discoverDomainPaths Domain.GLOBAL_DOMAINS_DIR fs = Throw e' ∧
         Domain.discoverItems fs = Throw e') ∧
  (∃ e', Main.discover_all Main.primitives fs = Throw e') ∧
  (help args = false → clearRecent args = false →
   Main.main args script now fs = (Ok (Main.Exit 1), fs)).
Proof.
  intros Hroot Hex Hrd.
  assert (Hsg : root = Skill.GLOBAL_SKILLS_DIR → Skill.discoverItems fs = Throw e).
  { intros ->. unfold Skill.discoverItems, Skill.discoverSkillPaths.
    by rewrite (discoverPaths_unlistable _ _ _ _ Hex Hrd). }
  assert (Hsl : root = Skill.LOCAL_SKILLS_DIR →
                Skill.discoverItems fs = Throw e ∨
                ∃ e', Skill.discoverSkillPaths Skill.GLOBAL_SKILLS_DIR fs = Throw e' ∧
                      Skill.discoverItems fs = Throw e').
  { intros ->. unfold Skill.discoverItems.
    destruct (Skill.discoverSkillPaths Skill.GLOBAL_SKILLS_DIR fs)
      as [gp|e'] eqn:Hg; [|right; by exists e'].
    left. simpl. case_bool_decide as Hne.
    - unfold Skill.discoverSkillPaths.
      by rewrite (discoverPaths_unlistable _ _ _ _ Hex Hrd).
    - unfold resolve in Hne.
      unfold Skill.discoverSkillPaths in Hg. rewrite <- Hne in Hg.
      by rewrite (discoverPaths_unlistable _ _ _ _ Hex Hrd) in Hg. }
  assert (Hdg : root = Domain.GLOBAL_DOMAINS_DIR → Domain.discoverItems fs = Throw e).
  { intros ->. unfold Domain.discoverItems, Domain.discoverDomainPaths.
    by rewrite (discoverPaths_unlistable _ _ _ _ Hex Hrd). }
  assert (Hdl : root = Domain.LOCAL_DOMAINS_DIR →
                Domain.discoverItems fs = Throw e ∨
                ∃ e', Domain.discoverDomainPaths Domain.GLOBAL_DOMAINS_DIR fs = Throw e' ∧
                      Domain.discoverItems fs = Throw e').
  { intros ->. unfold Domain.discoverItems.
    destruct (Domain.discoverDomainPaths Domain.GLOBAL_DOMAINS_DIR fs)
      as [gp|e'] eqn:Hg; [|right; by exists e'].
    left. simpl. unfold Domain.discoverDomainPaths.
    by rewrite (discoverPaths_unlistable _ _ _ _ Hex Hrd). }
  assert (Hall : ∃ e', Main.discover_all Main.primitives fs = Throw e').
  { unfold Main.primitives.
    cbn [Main.discover_all discoverItems Skill.SkillPrimitive
         Domain.DomainPrimitive].
    assert (Hcases : (∃ e', Skill.discoverItems fs = Throw e') ∨
                     (∃ e', Domain.discoverItems fs = Throw e')).
    { apply elem_of_cons in Hroot as [Hr|Hroot]; [left; eauto|].
      apply elem_of_cons in Hroot as [Hr|Hroot].
      { left. destruct (Hsl Hr) as [?|(e' & _ & ?)]; eauto. }
      apply elem_of_cons in Hroot as [Hr|Hroot]; [right; eauto|].
      apply elem_of_cons in Hroot as [Hr|Hroot]; [|by apply elem_of_nil in Hroot].
      right. destruct (Hdl Hr) as [?|(e' & _ & ?)]; eauto. }
    destruct Hcases as [[e' He']|[e' He']].
    - rewrite He'. by exists e'.
    - destruct (Skill.discoverItems fs) as [si|es]; [|by exists es].
      rewrite He'. by exists e'. }
  split_and!; try done. intros Hhelp Hclear.
  destruct Hall as [e' Hall].
  unfold Main.main, io_try_catch, mbind, IO_bind, io_read.
  by rewrite Hhelp, Hclear, Hall.
Qed.

(** X10. Front matter is taken whole or not at all: when [name] or
    [description] is present but is not a string, validation fails and both
    fall back, the name to the base name of the directory and the description
    to the placeholder, whatever the other field holds. *)
Theorem invalid_front_matter_drops_both_fields
    (type_name : string) (p : Path) (src : Source) (fs : Disk)
    (content body : string) (fields : list (string * json)) (bad : json) :
  readFileSync p fs = Ok content →
  matter content = Ok (JObject fields, body) →
  (obj_get "name" fields = Some bad ∨ obj_get "description" fields = Some bad) →
  (∀ s, bad ≠ JString s) →
  Discovery.parseItem type_name p src fs
  = Some {| type := type_name; name := basename (dirname p);
            description := "No description provided";
            path := p; source := src |}.
Proof.
  intros Hrd Hm Hbad Hnot. unfold Discovery.parseItem. rewrite Hrd. simpl.
  rewrite Hm.
  assert (Hs : FrontmatterSchema_safeParse (JObject fields) = None).
  { unfold FrontmatterSchema_safeParse.
    destruct Hbad as [-> | ->].
    - destruct bad; try done. by destruct (Hnot s).
    - destruct (optional_string (obj_get "name" fields)); [|done].
      destruct bad; try done. by destruct (Hnot s). }
  by rewrite Hs.
Qed.

End MoreDiscovery.

(* ================================================================== *)
(** * More on the prompt                                               *)
(* ================================================================== *)

Lemma has_line_concat sep (ss : list string) s l :
  s ∈ ss → has_line l s → has_line l (String.concat sep ss).
Proof.
  induction ss as [|x ss IH]; intros Hin Hl.
  - by apply elem_of_nil in Hin.
  - destruct ss as [|y ss].
    + apply list_elem_of_singleton in Hin as ->. done.
    + change (String.concat sep (x :: y :: ss))
        with (x +:+ sep +:+ String.concat sep (y :: ss)).
      apply elem_of_cons in Hin as [->|Hin].
      * by apply has_line_app_l.
      * by apply has_line_app_r, has_line_app_r, IH.
Qed.

(** A line of a block of lines that stands between two line breaks. *)
Lemma has_line_block (ls : list string) l pre post :
  l ∈ ls → has_line l (pre +:+ nl +:+ String.concat nl ls +:+ nl +:+ post).
Proof.
  revert pre. induction ls as [|x ls IH]; intros pre Hin.
  - by apply elem_of_nil in Hin.
  - destruct ls as [|y ls].
    + apply list_elem_of_singleton in Hin as ->. by exists pre, post.
    + change (String.concat nl (x :: y :: ls))
        with (x +:+ nl +:+ String.concat nl (y :: ls)).
      apply elem_of_cons in Hin as [->|Hin].
      * exists pre, (String.concat nl (y :: ls) +:+ nl +:+ post).
        by rewrite !string_app_assoc.
      * specialize (IH (pre +:+ nl +:+ x) Hin).
        by rewrite !string_app_assoc in IH |- *.
Qed.

Lemma array_of_strings_fmap (l : list string) :
  array_of_strings (JString <$> l) = Some l.
Proof. induction l as [|s l IH]; [done|]. rewrite fmap_cons. simpl. by rewrite IH. Qed.

Lemma MetadataSchema_parse_error (m : JSObject json) e :
  MetadataSchema_parse m = Throw e → e = ZodError.
Proof.
  unfold MetadataSchema_parse.
  destruct (obj_get "references" m) as [[| | | |l|]|]; try by intros [= <-].
  destruct (array_of_strings l); [done|by intros [= <-]].
Qed.

(** The sections of a prompt: one per content, or the first exception. *)
Lemma array_map_sections (section : PrimitiveContent → Completion string)
    (contents : list PrimitiveContent) :
  (∀ c, c ∈ contents → ∃ s, section c = Ok s) →
  ∃ sections,
    array_map section contents = Ok sections ∧
    ∀ c, c ∈ contents → ∃ s, section c = Ok s ∧ s ∈ sections.
Proof.
  induction contents as [|c contents IH]; intros Hall.
  - exists []. split; [done|]. intros c Hc. by apply elem_of_nil in Hc.
  - destruct (Hall c) as [s Hs]; [by left|].
    destruct IH as (sections & Hm & Hin); [intros c' Hc'; apply Hall; by right|].
    exists (s :: sections). split; [simpl; by rewrite Hs, Hm|].
    intros c' [->|Hc']%elem_of_cons.
    + exists s. split; [done|by left].
    + destruct (Hin c' Hc') as (s' & Hs' & Hin'). exists s'. split; [done|by right].
Qed.

Lemma array_map_Ok_each {A B} (f : A → Completion B) l ys x :
  array_map f l = Ok ys → x ∈ l → ∃ y, f x = Ok y.
Proof.
  intros Hm Hx. destruct (array_map_elem f l ys x Hm Hx) as (y & Hy & _). eauto.
Qed.

Lemma array_map_Throw {A B} (f : A → Completion B) l e :
  array_map f l = Throw e → ∃ x, x ∈ l ∧ f x = Throw e.
Proof.
  induction l as [|a l IH]; simpl; [done|].
  destruct (f a) as [b|e'] eqn:Hfa; simpl.
  - destruct (array_map f l) as [bs|e'] eqn:Hl; simpl; [done|].
    intros [= ->]. destruct (IH eq_refl) as (x & Hx & Hfx).
    exists x. split; [by right|done].
  - intros [= ->]. exists a. split; [by left|done].
Qed.

Lemma Skill_section_Ok (c : PrimitiveContent) refs :
  MetadataSchema_parse (metadata c) = Ok refs →
  ∃ s, Skill.section c = Ok s ∧
    has_line ("## " +:+ name (item c)) s ∧
    has_line ("> Source: " +:+ to_string (dirname (path (item c)))) s ∧
    (refs ≠ [] →
     has_line ("### References bundled with " +:+ name (item c) +:+ ":") s ∧
     ∀ r, r ∈ refs → has_line ("- " +:+ r) s).
Proof.
  intros Hmeta. unfold Skill.section. rewrite Hmeta. simpl.
  set (text := lines _).
  assert (Hname : has_line ("## " +:+ name (item c)) text).
  { exists "". eexists. reflexivity. }
  assert (Hsrc : has_line ("> Source: " +:+ to_string (dirname (path (item c)))) text).
  { exists ("" +:+ nl +:+ "## " +:+ name (item c)). eexists.
    unfold text, lines. cbn [String.concat]. rewrite !string_app_assoc.
    reflexivity. }
  destruct refs as [|r0 refs]; simpl.
  - exists text. by split_and!.
  - eexists. split; [reflexivity|].
    split_and!; [by apply has_line_app_l|by apply has_line_app_l|].
    intros _. split.
    + apply has_line_app_r. exists ("" +:+ nl +:+ ""). eexists.
      unfold lines. cbn [String.concat]. rewrite !string_app_assoc. reflexivity.
    + intros r Hr. apply has_line_app_r.
      unfold lines, join_strings. cbn [String.concat].
      pose proof (has_line_block ((fun r => "- " +:+ r) <$> r0 :: refs)
        ("- " +:+ r)
        ("" +:+ nl +:+ "" +:+ nl +:+ "### References bundled with "
            +:+ name (item c) +:+ ":")
        ("" +:+ nl +:+ "Use Skill(" +:+ name (item c)
            +:+ ") to load any reference file.")) as Hb.
      rewrite !string_app_assoc in Hb. rewrite !string_app_assoc. apply Hb.
      apply list_elem_of_fmap. by exists r.
Qed.

Lemma Domain_section_Ok (c : PrimitiveContent) refs :
  MetadataSchema_parse (metadata c) = Ok refs →
  ∃ s, Domain.section c = Ok s ∧
    has_line ("## " +:+ name (item c)) s ∧
    has_line ("> Source: " +:+ to_string (dirname (path (item c)))) s ∧
    (refs ≠ [] →
     has_line ("### References bundled with " +:+ name (item c) +:+ ":") s ∧
     has_line ("These files are available in "
               +:+ to_string (dirname (path (item c)))
               +:+ "/references/ and can be read") s ∧
     ∀ r, r ∈ refs → has_line ("- " +:+ r) s).
Proof.
  intros Hmeta. unfold Domain.section. rewrite Hmeta. simpl.
  set (text := lines _).
  assert (Hname : has_line ("## " +:+ name (item c)) text).
  { exists "". eexists. reflexivity. }
  assert (Hsrc : has_line ("> Source: " +:+ to_string (dirname (path (item c)))) text).
  { exists ("" +:+ nl +:+ "## " +:+ name (item c)). eexists.
    unfold text, lines. cbn [String.concat]. rewrite !string_app_assoc.
    reflexivity. }
  destruct refs as [|r0 refs]; simpl.
  - exists text. by split_and!.
  - eexists. split; [reflexivity|].
    split_and!; [by apply has_line_app_l|by apply has_line_app_l|].
    intros _. split_and!.
    + apply has_line_app_r. exists ("" +:+ nl +:+ ""). eexists.
      unfold lines. cbn [String.concat]. rewrite !string_app_assoc. reflexivity.
    + apply has_line_app_r.
      exists ("" +:+ nl +:+ "" +:+ nl +:+ "### References bundled with "
                 +:+ name (item c) +:+ ":" +:+ nl
                 +:+ join_strings nl ((fun r => "- " +:+ r) <$> r0 :: refs)
                 +:+ nl +:+ "").
      eexists. unfold lines. cbn [String.concat]. rewrite !string_app_assoc.
      reflexivity.
    + intros r Hr. apply has_line_app_r.
      unfold lines, join_strings. cbn [String.concat].
      pose proof (has_line_block ((fun r => "- " +:+ r) <$> r0 :: refs)
        ("- " +:+ r)
        ("" +:+ nl +:+ "" +:+ nl +:+ "### References bundled with "
            +:+ name (item c) +:+ ":")
        ("" +:+ nl +:+ "These files are available in "
            +:+ to_string (dirname (path (item c)))
            +:+ "/references/ and can be read" +:+ nl
            +:+ "directly when deeper detail is needed.")) as Hb.
      rewrite !string_app_assoc in Hb. rewrite !string_app_assoc. apply Hb.
      apply list_elem_of_fmap. by exists r.
Qed.

(** X11. The skills prompt for any contents.  When it is returned it opens
    with the header and closes with the footer of the skills, and for every
    content it has the heading [## name] and the [> Source:] line of the
    directory of the item; a content with references also has the heading of
    its references and one [- file] line for each of them.  Without contents
    it is the header followed by the footer. *)
Theorem Skill_prompt_lists_every_content
    (contents : list PrimitiveContent) (text : string) :
  Skill.formatForPrompt contents = Ok text →
  has_line "AGENT PRIMER: ACTIVE SKILLS FOR THIS SESSION" text ∧
  has_line "END AGENT PRIMER" text ∧
  (contents = [] → text = Skill.header +:+ Skill.footer) ∧
  ∀ c, c ∈ contents →
    has_line ("## " +:+ name (item c)) text ∧
    has_line ("> Source: " +:+ to_string (dirname (path (item c)))) text ∧
    ∀ refs, MetadataSchema_parse (metadata c) = Ok refs → refs ≠ [] →
      has_line ("### References bundled with " +:+ name (item c) +:+ ":") text ∧
      ∀ r, r ∈ refs → has_line ("- " +:+ r) text.
Proof.
  unfold Skill.formatForPrompt.
  destruct (array_map Skill.section contents) as [sections|e] eqn:Hm; [|done].
  simpl. intros [= <-].
  assert (Hlift : ∀ l s, s ∈ sections → has_line l s →
    has_line l (Skill.header +:+ join_strings (nl +:+ nl +:+ thinDivider) sections
                +:+ Skill.footer)).
  { intros l s Hs Hl. apply has_line_app_r, has_line_app_l.
    by eapply has_line_concat. }
  split_and!.
  - apply has_line_app_l. exists divider. eexists. reflexivity.
  - do 2 apply has_line_app_r. exists (nl +:+ nl +:+ divider), divider. reflexivity.
  - intros ->. by injection Hm as <-.
  - intros c Hc.
    destruct (array_map_elem _ _ _ _ Hm Hc) as (s & Hs & Hin).
    destruct (MetadataSchema_parse (metadata c)) as [refs|e] eqn:Hmeta.
    + destruct (Skill_section_Ok c refs Hmeta) as (s' & Hs' & Hn & Hsrc & Hrefs).
      rewrite Hs in Hs'. injection Hs' as <-.
      split_and!; [by eapply Hlift|by eapply Hlift|].
      intros refs' [= <-] Hne. destruct (Hrefs Hne) as [Hh Hr].
      split; [by eapply Hlift|]. intros r Hin'. eapply Hlift; [done|by apply Hr].
    + unfold Skill.section in Hs. by rewrite Hmeta in Hs.
Qed.

(** X12. The domains prompt has its own frame: it opens with AGENT PRIMER:
    DOMAIN KNOWLEDGE FOR THIS SESSION and closes with END DOMAIN KNOWLEDGE,
    and for every content it has the heading and the source line; a content
    with references has their heading, one [- file] line for each and the
    line that says the files are in the [references/] folder of the
    directory of the item. *)
Theorem Domain_prompt_lists_every_content
    (contents : list PrimitiveContent) (text : string) :
  Domain.formatForPrompt contents = Ok text →
  has_line "AGENT PRIMER: DOMAIN KNOWLEDGE FOR THIS SESSION" text ∧
  has_line "END DOMAIN KNOWLEDGE" text ∧
  (contents = [] → text = Domain.header +:+ Domain.footer) ∧
  ∀ c, c ∈ contents →
    has_line ("## " +:+ name (item c)) text ∧
    has_line ("> Source: " +:+ to_string (dirname (path (item c)))) text ∧
    ∀ refs, MetadataSchema_parse (metadata c) = Ok refs → refs ≠ [] →
      has_line ("### References bundled with " +:+ name (item c) +:+ ":") text ∧
      has_line ("These files are available in "
                +:+ to_string (dirname (path (item c)))
                +:+ "/references/ and can be read") text ∧
      ∀ r, r ∈ refs → has_line ("- " +:+ r) text.
Proof.
  unfold Domain.formatForPrompt.
  destruct (array_map Domain.section contents) as [sections|e] eqn:Hm; [|done].
  simpl. intros [= <-].
  assert (Hlift : ∀ l s, s ∈ sections → has_line l s →
    has_line l (Domain.header +:+ join_strings (nl +:+ nl +:+ thinDivider) sections
                +:+ Domain.footer)).
  { intros l s Hs Hl. apply has_line_app_r, has_line_app_l.
    by eapply has_line_concat. }
  split_and!.
  - apply has_line_app_l. exists divider. eexists. reflexivity.
  - do 2 apply has_line_app_r. exists (nl +:+ nl +:+ divider), divider. reflexivity.
  - intros ->. by injection Hm as <-.
  - intros c Hc.
    destruct (array_map_elem _ _ _ _ Hm Hc) as (s & Hs & Hin).
    destruct (MetadataSchema_parse (metadata c)) as [refs|e] eqn:Hmeta.
    + destruct (Domain_section_Ok c refs Hmeta)
        as (s' & Hs' & Hn & Hsrc & Hrefs).
      rewrite Hs in Hs'. injection Hs' as <-.
      split_and!; [by eapply Hlift|by eapply Hlift|].
      intros refs' [= <-] Hne. destruct (Hrefs Hne) as (Hh & Hf & Hr).
      split_and!; [by eapply Hlift|by eapply Hlift|].
      intros r Hin'. eapply Hlift; [done|by apply Hr].
    + unfold Domain.section in Hs. by rewrite Hmeta in Hs.
Qed.

(** X13. [formatForPrompt] fails only on metadata: it returns a text exactly
    when the metadata of every content has a [references] array of strings,
    and what it throws otherwise is the validation error, for skills and for
    domains. *)
Theorem formatForPrompt_fails_on_invalid_metadata_only
    (contents : list PrimitiveContent) :
  ((∃ text, Skill.formatForPrompt contents = Ok text)
   ↔ ∀ c, c ∈ contents → ∃ refs, MetadataSchema_parse (metadata c) = Ok refs) ∧
  ((∃ text, Domain.formatForPrompt contents = Ok text)
   ↔ ∀ c, c ∈ contents → ∃ refs, MetadataSchema_parse (metadata c) = Ok refs) ∧
  (∀ e, Skill.formatForPrompt contents = Throw e → e = ZodError) ∧
  (∀ e, Domain.formatForPrompt contents = Throw e → e = ZodError).
Proof.
  assert (Hskill : ∀ c e, Skill.section c = Throw e →
            MetadataSchema_parse (metadata c) = Throw e).
  { intros c e. unfold Skill.section.
    destruct (MetadataSchema_parse (metadata c)) as [refs|e']; cbn;
      [by destruct refs|by intros [= ->]]. }
  assert (Hdomain : ∀ c e, Domain.section c = Throw e →
            MetadataSchema_parse (metadata c) = Throw e).
  { intros c e. unfold Domain.section.
    destruct (MetadataSchema_parse (metadata c)) as [refs|e']; cbn;
      [by destruct refs|by intros [= ->]]. }
  split_and!.
  - unfold Skill.formatForPrompt. split.
    + intros [text Ht] c Hc.
      destruct (array_map Skill.section contents) as [ss|e] eqn:Hm; [|done].
      destruct (array_map_Ok_each _ _ _ _ Hm Hc) as [s Hs].
      destruct (MetadataSchema_parse (metadata c)) as [refs|e] eqn:Hmeta; [eauto|].
      unfold Skill.section in Hs. by rewrite Hmeta in Hs.
    + intros Hall.
      destruct (array_map_sections Skill.section contents) as (ss & -> & _);
        [|simpl; eauto].
      intros c Hc. destruct (Hall c Hc) as [refs Hrefs].
      destruct (Skill_section_Ok c refs Hrefs) as (s & Hs & _). eauto.
  - unfold Domain.formatForPrompt. split.
    + intros [text Ht] c Hc.
      destruct (array_map Domain.section contents) as [ss|e] eqn:Hm; [|done].
      destruct (array_map_Ok_each _ _ _ _ Hm Hc) as [s Hs].
      destruct (MetadataSchema_parse (metadata c)) as [refs|e] eqn:Hmeta; [eauto|].
      unfold Domain.section in Hs. by rewrite Hmeta in Hs.
    + intros Hall.
      destruct (array_map_sections Domain.section contents) as (ss & -> & _);
        [|simpl; eauto].
      intros c Hc. destruct (Hall c Hc) as [refs Hrefs].
      destruct (Domain_section_Ok c refs Hrefs) as (s & Hs & _). eauto.
  - intros e. unfold Skill.formatForPrompt.
    destruct (array_map Skill.section contents) as [ss|e'] eqn:Hm; [done|].
    simpl. intros [= ->]. apply array_map_Throw in Hm as (c & _ & Hc).
    by eapply MetadataSchema_parse_error, Hskill.
  - intros e. unfold Domain.formatForPrompt.
    destruct (array_map Domain.section contents) as [ss|e'] eqn:Hm; [done|].
    simpl. intros [= ->]. apply array_map_Throw in Hm as (c & _ & Hc).
    by eapply MetadataSchema_parse_error, Hdomain.
Qed.

Section LoadContent.
Context `{Runtime} {Disk : Type} `{FileSystem Disk}.

Lemma loadContent_Ok (it : PrimitiveItem) (fs : Disk) c :
  Discovery.loadContent it fs = Ok c →
  item c = it ∧
  ∃ raw data refs,
    readFileSync (path it) fs = Ok raw ∧
    matter raw = Ok (data, mainContent c) ∧
    MetadataSchema_parse (metadata c) = Ok refs ∧
    (if existsSync (join (dirname (path it)) "references") fs
     then readdirSync (join (dirname (path it)) "references") fs = Ok refs
     else refs = []).
Proof.
  unfold Discovery.loadContent.
  destruct (readFileSync (path it) fs) as [raw|e]; [|done]. simpl.
  destruct (matter raw) as [[data body]|e] eqn:Hm; [|done]. simpl.
  destruct (existsSync _ fs).
  - destruct (readdirSync _ fs) as [refs|e]; [|done]. simpl.
    intros [= <-]. simpl. split; [done|]. exists raw, data, refs.
    split_and!; try done.
    unfold MetadataSchema_parse. simpl. by rewrite array_of_strings_fmap.
  - simpl. intros [= <-]. simpl. split; [done|]. exists raw, data, [].
    by split_and!.
Qed.

(** X14. What [loadContent] returns can always be formatted.  The content
    keeps the item, its body is the part of the file after the front matter,
    and its metadata hold the names listed in the [references] folder beside
    the file, or no name when there is no such folder; so for contents loaded
    from any items, [formatForPrompt] returns a text. *)
Theorem loaded_contents_can_be_formatted
    (fs : Disk) (items : list PrimitiveItem) (contents : list PrimitiveContent) :
  array_map (fun it => Discovery.loadContent it fs) items = Ok contents →
  (∃ text, Skill.formatForPrompt contents = Ok text) ∧
  (∃ text, Domain.formatForPrompt contents = Ok text) ∧
  item <$> contents = items ∧
  ∀ c, c ∈ contents →
    ∃ raw data refs,
      readFileSync (path (item c)) fs = Ok raw ∧
      matter raw = Ok (data, mainContent c) ∧
      MetadataSchema_parse (metadata c) = Ok refs ∧
      (if existsSync (join (dirname (path (item c))) "references") fs
       then readdirSync (join (dirname (path (item c))) "references") fs = Ok refs
       else refs = []).
Proof.
  intros Hload.
  assert (Heach : ∀ c, c ∈ contents →
            ∃ it, it ∈ items ∧ Discovery.loadContent it fs = Ok c).
  { intros c Hc. by eapply array_map_elem_inv. }
  assert (Hmeta : ∀ c, c ∈ contents →
            ∃ refs, MetadataSchema_parse (metadata c) = Ok refs).
  { intros c Hc. destruct (Heach c Hc) as (it & _ & Hit).
    apply loadContent_Ok in Hit as (_ & ? & ? & refs & _ & _ & ? & _). eauto. }
  split_and!.
  - destruct (array_map_sections Skill.section contents) as (ss & Hss & _).
    + intros c Hc. destruct (Hmeta c Hc) as [refs Hrefs].
      destruct (Skill_section_Ok c refs Hrefs) as (s & Hs & _). eauto.
    + unfold Skill.formatForPrompt. rewrite Hss. simpl. eauto.
  - destruct (array_map_sections Domain.section contents) as (ss & Hss & _).
    + intros c Hc. destruct (Hmeta c Hc) as [refs Hrefs].
      destruct (Domain_section_Ok c refs Hrefs) as (s & Hs & _). eauto.
    + unfold Domain.formatForPrompt. rewrite Hss. simpl. eauto.
  - clear Heach Hmeta. revert contents Hload.
    induction items as [|it items IH]; intros contents; simpl.
    + by intros [= <-].
    + destruct (Discovery.loadContent it fs) as [c|e] eqn:Hc; [|done]. simpl.
      destruct (array_map _ items) as [cs|e]; [|done]. simpl.
      intros [= <-]. rewrite fmap_cons, (IH cs eq_refl).
      by apply loadContent_Ok in Hc as [-> _].
  - intros c Hc. destruct (Heach c Hc) as (it & _ & Hit).
    apply loadContent_Ok in Hit as (<- & Hrest). done.
Qed.

End LoadContent.

(* ================================================================== *)
(** * More on the selection and the launch                             *)
(* ================================================================== *)

Section MoreLaunch.
Context `{Runtime} {Disk : Type} `{FileSystem Disk}.

Lemma updateCache_never_throws (items : list PrimitiveItem) (now : Z) (fs : Disk) :
  ∃ fs', Cache.updateCache items now fs = (Ok (), fs').
Proof.
  destruct (loadCache_total fs) as [loaded Hload].
  unfold Cache.updateCache, io_read, mbind, IO_bind. rewrite Hload.
  apply saveCache_never_throws.
Qed.

(** X15. A confirmed, non-empty selection, from end to end.  The cache is
    updated first, and that never fails.  If the contents of the selection
    can then be loaded, [main] spawns the external process with the
    permission flag (in dangerous mode), then [--append-system-prompt] and
    the prompt (the blocks of the types, two line breaks apart), then the
    pass-through arguments.  If loading a content throws, [main] exits with
    code 1 through its top-level handler, with the cache already updated. *)
Theorem confirmed_selection_updates_cache_then_loads
    (args : ParsedArgs) (script : list Main.Round) (now : Z) (fs : Disk)
    (allItems selectedItems : list PrimitiveItem) (cache : RecentCache) :
  help args = false → clearRecent args = false → list_flag args = false →
  Main.discover_all Main.primitives fs = Ok allItems →
  allItems ≠ [] →
  Cache.loadCache fs = Ok cache →
  Main.selection_loop script (Main.sortedItems_of allItems cache)
  = Main.Confirmed selectedItems →
  selectedItems ≠ [] →
  ∃ fs1,
    Cache.updateCache selectedItems now fs = (Ok (), fs1) ∧
    Main.main args script now fs
    = match Main.promptSections (Map_groupBy type selectedItems) fs1 with
      | Ok sections =>
          (Ok (Main.Spawn
                 ((if dangerousMode args
                   then ["--dangerously-skip-permissions"] else [])
                  ++ ["--append-system-prompt"; join_strings (nl +:+ nl) sections]
                  ++ claudeArgs args)), fs1)
      | Throw _ => (Ok (Main.Exit 1), fs1)
      end.
Proof.
  intros Hhelp Hclear Hlist Hdisc Hne Hload Hsel Hsome.
  destruct (updateCache_never_throws selectedItems now fs) as [fs1 Hup].
  exists fs1. split; [done|].
  unfold Main.main, io_try_catch, mbind, IO_bind, io_read.
  rewrite Hhelp, Hclear, Hdisc.
  destruct allItems as [|x l]; [done|]. cbn [length Nat.eqb].
  rewrite Hload, Hlist. unfold Main.orchestrate. rewrite Hsel.
  unfold Main.launch. destruct selectedItems as [|y sel]; [done|].
  cbn [length Nat.eqb]. unfold mbind, IO_bind, io_read. rewrite Hup.
  unfold Main.dangerousArgs.
  by destruct (Main.promptSections _ fs1).
Qed.

(** X16. Passes of the selection loop that end with "no" leave no trace: the
    loop goes on as if it started with the next pass, with nothing kept of
    what was picked.  A pass in which a picker is cancelled, or that is
    answered with exit or the cancel signal, ends the program with exit code
    0 and the file system as it was, whatever was picked. *)
Theorem selection_restarts_and_cancels
    (args : ParsedArgs) (sortedItems : list PrimitiveItem)
    (passes script : list Main.Round) (round : Main.Round)
    (now : Z) (fs : Disk) :
  Forall (fun r => Main.select r = Main.No ∧
                   Main.pickers r (Map_groupBy type sortedItems) ≠ None) passes →
  Main.selection_loop (passes ++ script) sortedItems
  = Main.selection_loop script sortedItems ∧
  (Main.pickers round (Map_groupBy type sortedItems) = None
   ∨ Main.select round = Main.ExitChoice ∨ Main.select round = Main.Cancel →
   Main.selection_loop (passes ++ round :: script) sortedItems = Main.Cancelled ∧
   Main.orchestrate args sortedItems (passes ++ round :: script) now fs
   = (Ok (Main.Exit 0), fs)).
Proof.
  intros Hpasses.
  assert (Hskip : ∀ rest, Main.selection_loop (passes ++ rest) sortedItems
                          = Main.selection_loop rest sortedItems).
  { intros rest. induction Hpasses as [|r passes [Hno Hpick] _ IH]; [done|].
    simpl. destruct (Main.pickers r _); [|done]. by rewrite Hno. }
  split; [apply Hskip|]. intros Hend.
  assert (Hc : Main.selection_loop (passes ++ round :: script) sortedItems
               = Main.Cancelled).
  { rewrite Hskip. simpl.
    destruct (Main.pickers round _) as [picked|]; [|done].
    destruct Hend as [?|[-> | ->]]; done. }
  split; [done|]. unfold Main.orchestrate. by rewrite Hc.
Qed.

(** X17. The order of the flags in [main].  With [--help] nothing is read
    or written.  With [--clear-recent] (and no [--help]) nothing is
    discovered and nobody is asked: the exit code is 0 whether or not
    clearing worked, and the file system is what [clearCache] left.  With
    [--list] (and neither of the two) the file system stays as it is
    whatever the user would answer, and the exit code is 0 exactly when
    discovery returned at least one item, 1 otherwise. *)
Theorem flags_take_precedence
    (args : ParsedArgs) (script : list Main.Round) (now : Z) (fs : Disk) :
  (help args = true → Main.main args script now fs = (Ok (Main.Exit 0), fs)) ∧
  (help args = false → clearRecent args = true →
   Main.main args script now fs = (Ok (Main.Exit 0), (Cache.clearCache fs).2)) ∧
  (help args = false → clearRecent args = false → list_flag args = true →
   ∃ code,
     Main.main args script now fs = (Ok (Main.Exit code), fs) ∧
     (code = 0 ∨ code = 1) ∧
     (code = 0 ↔ ∃ allItems, Main.discover_all Main.primitives fs = Ok allItems
                             ∧ allItems ≠ [])).
Proof.
  split; [|split].
  - intros Hhelp. unfold Main.main, io_try_catch. by rewrite Hhelp.
  - intros Hhelp Hclear.
    unfold Main.main, io_try_catch, mbind, IO_bind. rewrite Hhelp, Hclear.
    by destruct (Cache.clearCache fs) as [[b|e] fs'].
  - intros Hhelp Hclear Hlist.
    unfold Main.main, io_try_catch, mbind, IO_bind, io_read.
    rewrite Hhelp, Hclear.
    destruct (Main.discover_all Main.primitives fs) as [allItems|e] eqn:Hdisc.
    + destruct allItems as [|x l]; cbn [length Nat.eqb].
      * exists 1. split; [done|]. split; [by right|].
        split; [done|]. by intros (l & [= <-] & Hne).
      * destruct (loadCache_total fs) as [loaded Hload].
        rewrite Hload, Hlist. exists 0. split; [done|]. split; [by left|].
        split; [|done]. intros _. by exists (x :: l).
    + exists 1. split; [done|]. split; [by right|].
      split; [done|]. by intros (l & Hl & _).
Qed.

End MoreLaunch.

(* ================================================================== *)
(** * The list mode                                                    *)
(* ================================================================== *)

Lemma code_units_le c : (Cli.code_units c ≤ 2)%nat.
Proof. unfold Cli.code_units. repeat case_match; lia. Qed.

Lemma code_units_continuation k :
  (k < 64)%N → Cli.code_units (ascii_of_N (128 + k)) = 0%nat.
Proof.
  intros Hk. unfold Cli.code_units. rewrite N_ascii_embedding by lia.
  destruct (N.ltb_spec (128 + k) 128); [lia|].
  destruct (N.ltb_spec (128 + k) 192); [done|lia].
Qed.

Lemma js_length_high_surrogate c rest :
  Cli.js_length (Cli.high_surrogate c rest) = 1%nat.
Proof.
  unfold Cli.high_surrogate. cbn [Cli.js_length].
  rewrite !code_units_continuation by (apply N.mod_lt; lia). reflexivity.
Qed.

Lemma js_length_app (a b : string) :
  Cli.js_length (a +:+ b) = (Cli.js_length a + Cli.js_length b)%nat.
Proof.
  induction a as [|c a IH]; [done|].
  change (Cli.code_units c + Cli.js_length (a +:+ b)
          = Cli.code_units c + Cli.js_length a + Cli.js_length b)%nat.
  rewrite IH. lia.
Qed.

(** A slice that is long enough is the whole string. *)
Lemma js_slice0_all n s : (Cli.js_length s ≤ n)%nat → Cli.js_slice0 n s = s.
Proof.
  revert n. induction s as [|c s IH]; intros n Hlen; [done|].
  cbn [Cli.js_length] in Hlen. cbn [Cli.js_slice0].
  pose proof (code_units_le c) as Hc.
  destruct (Cli.code_units c) as [|[|u]] eqn:Hu.
  - f_equal. apply IH. lia.
  - destruct n as [|n]; [lia|]. f_equal. apply IH. lia.
  - destruct n as [|[|n]]; [lia|lia|]. f_equal. apply IH. lia.
Qed.

(** A slice of a string that is long enough has the length asked for. *)
Lemma js_length_slice0 n s :
  (n ≤ Cli.js_length s)%nat → Cli.js_length (Cli.js_slice0 n s) = n.
Proof.
  revert n. induction s as [|c s IH]; intros n Hlen.
  - simpl in *. lia.
  - cbn [Cli.js_length] in Hlen. cbn [Cli.js_slice0].
    pose proof (code_units_le c) as Hc.
    destruct (Cli.code_units c) as [|[|u]] eqn:Hu.
    + cbn [Cli.js_length]. rewrite Hu. apply IH. lia.
    + destruct n as [|n]; [done|]. cbn [Cli.js_length]. rewrite Hu, IH; lia.
    + destruct n as [|[|n]]; [done| |].
      * apply js_length_high_surrogate.
      * cbn [Cli.js_length]. rewrite Hu, IH; lia.
Qed.

Lemma Object_keys_get {V} (o : JSObject V) k :
  k ∈ Object_keys o ↔ is_Some (obj_get k o).
Proof.
  unfold Object_keys. induction o as [|[k' v] o IH].
  - simpl. split; [by intros ?%elem_of_nil|by intros [? ?]].
  - rewrite fmap_cons. cbn [fst obj_get].
    destruct (String.eqb_spec k k') as [->|Hne].
    + split; [eauto|by left].
    + rewrite <- IH. split; [by intros [?|?]%elem_of_cons|by right].
Qed.

(** X18. The two lines of an item in list mode.  The first starts with a
    star exactly when the cache has an entry under the key of the item, and
    with a blank otherwise; so an entry stored with timestamp 0 is starred,
    although it sorts like no entry.  The second shows the description whole
    when it has at most 70 UTF-16 code units (what [length] counts), and
    otherwise its first 70 code units followed by three dots, 77 code units
    with the indentation. *)
Theorem list_mode_lines_of_an_item
    (cache : RecentCache) (it : PrimitiveItem) :
  ∃ mark shown,
    Cli.item_lines (Object_keys (recent cache)) it
    = [mark +:+ " [" +:+ Source_to_string (source it) +:+ "] " +:+ name it;
       "    " +:+ shown] ∧
    (is_Some (obj_get (Cache.cacheKey it) (recent cache)) → mark = "*") ∧
    (obj_get (Cache.cacheKey it) (recent cache) = None → mark = " ") ∧
    (obj_get (Cache.cacheKey it) (recent cache) = Some 0 →
     mark = "*" ∧ Cache.time_or_zero cache (Cache.cacheKey it) = 0) ∧
    ((Cli.js_length (description it) ≤ 70)%nat → shown = description it) ∧
    ((70 < Cli.js_length (description it))%nat →
     shown = Cli.js_slice0 70 (description it) +:+ "..." ∧
     Cli.js_length ("    " +:+ shown) = 77%nat).
Proof.
  unfold Cli.item_lines.
  eexists _, _. split; [reflexivity|].
  split_and!.
  - intros Hs. by rewrite bool_decide_eq_true_2 by by apply Object_keys_get.
  - intros Hn. rewrite bool_decide_eq_false_2; [done|].
    rewrite Object_keys_get, Hn. by intros [? ?].
  - intros Hz. split.
    + rewrite bool_decide_eq_true_2; [done|]. apply Object_keys_get. by rewrite Hz.
    + unfold Cache.time_or_zero. by rewrite Hz.
  - intros Hlen. rewrite js_slice0_all by done.
    destruct (Nat.ltb_spec 70 (Cli.js_length (description it))); [lia|].
    generalize (description it). intros d. induction d as [|c d IH]; [done|].
    change (String c (d +:+ "") = String c d). by f_equal.
  - intros Hlen.
    destruct (Nat.ltb_spec 70 (Cli.js_length (description it))); [|lia].
    split; [done|]. rewrite !js_length_app, js_length_slice0 by lia. done.
Qed.

Lemma group_insert_new {A} (key : A → string) (x : A) gs :
  ∃ g, g ∈ group_insert (key x) x gs ∧ g.1 = key x ∧ x ∈ g.2.
Proof.
  induction gs as [|[k xs] gs IH]; simpl.
  - exists (key x, [x]). split_and!; [by left|done|by left].
  - destruct (String.eqb_spec (key x) k) as [Hk|Hne].
    + exists (k, xs ++ [x]). split_and!; [by left|done|].
      apply elem_of_app. right. by left.
    + destruct IH as (g & Hg & ? & ?). exists g. split_and!; [by right|done..].
Qed.

Lemma group_insert_old {A} (k : string) (x y : A) gs g :
  g ∈ gs → y ∈ g.2 → ∃ g', g' ∈ group_insert k x gs ∧ g'.1 = g.1 ∧ y ∈ g'.2.
Proof.
  induction gs as [|[k' xs] gs IH]; intros Hg Hy.
  - by apply elem_of_nil in Hg.
  - simpl. apply elem_of_cons in Hg as [->|Hg].
    + destruct (String.eqb_spec k k') as [->|Hne].
      * exists (k', xs ++ [x]). split_and!; [by left|done|].
        apply elem_of_app. by left.
      * exists (k', xs). split_and!; [by left|done..].
    + destruct (String.eqb_spec k k') as [->|Hne].
      * exists g. split_and!; [by right|done..].
      * destruct (IH Hg Hy) as (g' & ? & ? & ?).
        exists g'. split_and!; [by right|done..].
Qed.

Lemma Map_groupBy_elem {A} (key : A → string) (l : list A) x :
  x ∈ l → ∃ g, g ∈ Map_groupBy key l ∧ g.1 = key x ∧ x ∈ g.2.
Proof.
  unfold Map_groupBy.
  assert (Hgo : ∀ acc,
    x ∈ l ∨ (∃ g, g ∈ acc ∧ g.1 = key x ∧ x ∈ g.2) →
    ∃ g, g ∈ foldl (fun gs y => group_insert (key y) y gs) acc l
         ∧ g.1 = key x ∧ x ∈ g.2).
  { induction l as [|y l IH]; intros acc Hx.
    - destruct Hx as [Hx|Hx]; [by apply elem_of_nil in Hx|done].
    - cbn [foldl]. apply IH. destruct Hx as [[->|Hx]%elem_of_cons|Hx].
      + right. apply group_insert_new.
      + by left.
      + right. destruct Hx as (g & Hg & Hk & Hin).
        destruct (group_insert_old (key y) y x acc g Hg Hin) as (g' & ? & ? & ?).
        exists g'. split_and!; [done|congruence|done]. }
  intros Hx. apply Hgo. by left.
Qed.

(** X19. In list mode every item of the sorted list is listed: its two
    lines are among the messages, after the message that counts the items,
    whether the items are shown by type (more than one type among them) or in
    one run. *)
Theorem list_mode_lists_every_item `{Runtime} {Disk : Type} `{FileSystem Disk}
    (allItems sortedItems : list PrimitiveItem) (cache : RecentCache)
    (it : PrimitiveItem) (line : string) :
  it ∈ sortedItems →
  line ∈ Cli.item_lines (Object_keys (recent cache)) it →
  ∃ report,
    Cli.list_report (Disk := Disk) allItems sortedItems cache
    = ("Found " +:+ pretty (length allItems) +:+ " primitive(s):" +:+ nl)
      :: report ∧
    line ∈ report.
Proof.
  intros Hit Hline. unfold Cli.list_report. eexists. split; [reflexivity|].
  destruct (1 <? length (remove_dups (type <$> allItems)))%nat.
  - destruct (Map_groupBy_elem type sortedItems it Hit) as (g & Hg & _ & Hin).
    apply list_elem_of_join. eexists. split; [|apply list_elem_of_fmap; by exists g].
    apply elem_of_app. left. right.
    apply list_elem_of_join. exists (Cli.item_lines (Object_keys (recent cache)) it).
    split; [done|]. apply list_elem_of_fmap. by exists it.
  - apply list_elem_of_join. exists (Cli.item_lines (Object_keys (recent cache)) it).
    split; [done|]. apply list_elem_of_fmap. by exists it.
Qed.

(* ================================================================== *)
(** * Further runs                                                     *)
(* ================================================================== *)

Import Example MoreExamples.

(** A run is its result paired with the file system it leaves. *)
Lemma io_result {Disk A : Type} (run : Completion A * Disk) (a : Completion A) :
  run.1 = a → run = (a, run.2).
Proof. destruct run as [a' fs']. by intros <-. Qed.

(** [-l --model opus -- --help x]: the [--help] after the separator is
    handed on, first; without separator the unknown arguments are. *)
Lemma parseArgs_closed_form_witness :
  Cli.parseArgs false argv_with_separator
  = {| help := false; clearRecent := false; list_flag := true;
       dangerousMode := false;
       claudeArgs := ["--help"; "x"; "--model"; "opus"] |} ∧
  Cli.parseArgs true argv_without_separator
  = {| help := false; clearRecent := true; list_flag := false;
       dangerousMode := true; claudeArgs := ["-p"; "hello"] |}.
Proof.
  split.
  - apply (proj1 (parseArgs_closed_form false argv_with_separator)
             ["-l"; "--model"; "opus"] ["--help"; "x"]).
    + reflexivity.
    + apply (bool_decide_unpack _). vm_compute. exact I.
  - apply (proj2 (parseArgs_closed_form true argv_without_separator)).
    apply (bool_decide_unpack _). vm_compute. exact I.
Defined.

(** The skill [foo] found under two paths has one key; the skills [x] and
    [y] have two. *)
Lemma cacheKey_identifies_type_source_name_witness :
  Cache.cacheKey foo = Cache.cacheKey foo_elsewhere ∧
  Cache.cacheKey (skill "x") ≠ Cache.cacheKey (skill "y").
Proof.
  split.
  - apply (cacheKey_identifies_type_source_name foo foo_elsewhere);
      [reflexivity|reflexivity|]. repeat split.
  - intros Hkey.
    apply (cacheKey_identifies_type_source_name (skill "x") (skill "y")) in Hkey;
      [|reflexivity|reflexivity].
    destruct Hkey as (_ & _ & Hname). vm_compute in Hname. discriminate Hname.
Defined.

(** The nine entries, saved where there is no cache directory yet. *)
Lemma saveCache_then_loadCache_witness :
  ∃ fs2,
    @Cache.saveCache in_project _ MemFS.fileSystem nine bare = (Ok (), fs2) ∧
    @Cache.loadCache in_project _ MemFS.fileSystem fs2 = Ok nine.
Proof.
  pose (made := @mkdirSync _ MemFS.fileSystem (@Cache.CACHE_DIR in_project) bare).
  pose (written := @writeFileSync _ MemFS.fileSystem
                     (@Cache.CACHE_FILE in_project)
                     (@JSON_stringify in_project nine) made.2).
  destruct (@saveCache_then_loadCache in_project _ MemFS.fileSystem nine bare
              made.2 written.2)
    as (Hsave & Hload & _).
  - apply (bool_decide_unpack _). vm_compute. exact I.
  - apply (io_result made). vm_compute. reflexivity.
  - apply (io_result written). vm_compute. reflexivity.
  - vm_compute. reflexivity.
  - vm_compute. reflexivity.
  - vm_compute. reflexivity.
  - exists written.2. exact (conj Hsave Hload).
Defined.

(** After [x], [y] and [z] were selected at time 100 on top of the nine
    entries, [x] comes before the cached skill [9]. *)
Lemma selected_items_sort_first_witness :
  let items := [skill "x"; skill "y"; skill "z"] in
  let saved := Cache.updateCache_prune
                 (Cache.updateCache_record items 100 nine) in
  @Cache.compareRecent in_project saved (skill "x") (skill "9") < 0.
Proof.
  intros items saved.
  refine (proj1 (proj2 (@selected_items_sort_first in_project _
                          MemFS.fileSystem items 100 with_nine nine
                          (skill "x") (skill "9") _ _ _ _ _ _))).
  - vm_compute. reflexivity.
  - lia.
  - apply Forall_forall. vm_compute. repeat constructor.
  - vm_compute. lia.
  - left.
  - apply (bool_decide_unpack _). vm_compute. exact I.
Defined.

(** The ordering example sorted twice. *)
Lemma sortByRecent_idempotent_witness :
  let h : Heap PrimitiveItem := {[ 0%nat := [item_A; item_B; item_C] ]} in
  let first := @Cache.sortByRecent in_project 0%nat cache_AC h in
  let second := @Cache.sortByRecent in_project first.1 cache_AC first.2 in
  second.2 !! second.1 = first.2 !! first.1.
Proof.
  intros h first second.
  exact (proj1 (proj2 (@sortByRecent_idempotent in_project 0%nat cache_AC h
                         [item_A; item_B; item_C]
                         ordinalCompare_consistent eq_refl))).
Defined.

(** The one skill of the world [one_skill]. *)
Lemma discovered_item_type_and_path_witness :
  type foo = "skill" ∧ basename (path foo) = "SKILL.md" ∧
  ∃ content, @readFileSync _ MemFS.fileSystem (path foo) one_skill = Ok content.
Proof.
  destruct (proj1 (@discovered_item_type_and_path in_project _ MemFS.fileSystem
                     one_skill [foo] foo))
    as (Htype & Hbase & Hread & _).
  - vm_compute. reflexivity.
  - left.
  - exact (conj Htype (conj Hbase Hread)).
Defined.

(** A link to nowhere beside the skill folder [foo]. *)
Lemma dangling_link_is_skipped_witness :
  @Discovery.discoverPaths _ MemFS.fileSystem "SKILL.md" skills with_dangling_link
  = Ok [skills ++ ["foo"; "SKILL.md"]].
Proof.
  rewrite (proj2 (@dangling_link_is_skipped _ MemFS.fileSystem "SKILL.md" skills
                    with_dangling_link
                    [{| dirent_name := "foo"; isSymbolicLink := false |}] []
                    {| dirent_name := "gone"; isSymbolicLink := true |}
                    (FsError "ENOENT")
                    ltac:(vm_compute; reflexivity) ltac:(vm_compute; reflexivity)
                    ltac:(reflexivity) ltac:(vm_compute; reflexivity))).
  vm_compute. reflexivity.
Defined.

(** Without any [.claude] directory. *)
Lemma no_roots_exit_one_witness :
  @Main.main in_project _ _ no_flags [picks_all] 100 bare
  = (Ok (Main.Exit 1), bare).
Proof.
  apply (@no_roots_exit_one in_project _ MemFS.fileSystem no_flags [picks_all]
           100 bare); vm_compute; reflexivity.
Defined.

(** A regular file in the place of the global skills root, and one in the
    place of the local domains root beside a skill that is found. *)
Lemma unlistable_root_is_fatal_witness :
  @Skill.discoverItems in_project _ _ root_is_a_file = Throw (FsError "ENOTDIR") ∧
  @Main.main in_project _ _ no_flags [picks_all] 100 root_is_a_file
  = (Ok (Main.Exit 1), root_is_a_file) ∧
  @Skill.discoverItems in_project _ _ local_domains_is_a_file = Ok [foo] ∧
  @Main.main in_project _ _ no_flags [picks_all] 100 local_domains_is_a_file
  = (Ok (Main.Exit 1), local_domains_is_a_file).
Proof.
  destruct (@unlistable_root_is_fatal in_project _ MemFS.fileSystem no_flags
              [picks_all] 100 root_is_a_file
              (@Skill.GLOBAL_SKILLS_DIR in_project) (FsError "ENOTDIR"))
    as (Hdiscover & _ & _ & _ & _ & Hmain).
  { left. }
  { vm_compute. reflexivity. }
  { vm_compute. reflexivity. }
  destruct (@unlistable_root_is_fatal in_project _ MemFS.fileSystem no_flags
              [picks_all] 100 local_domains_is_a_file
              (@Domain.LOCAL_DOMAINS_DIR in_project) (FsError "ENOTDIR"))
    as (_ & _ & _ & _ & _ & Hmain').
  { right. right. right. left. }
  { vm_compute. reflexivity. }
  { vm_compute. reflexivity. }
  split; [by apply Hdiscover|]. split; [by apply Hmain|].
  split; [vm_compute; reflexivity|by apply Hmain'].
Defined.

(** [name:] without a value is null: the description [bar] is lost too. *)
Lemma invalid_front_matter_drops_both_fields_witness :
  @Discovery.parseItem in_project _ _ "skill" (skills ++ ["foo"; "SKILL.md"])
    global with_null_name
  = Some {| type := "skill"; name := "foo";
            description := "No description provided";
            path := skills ++ ["foo"; "SKILL.md"]; source := global |}.
Proof.
  apply (@invalid_front_matter_drops_both_fields in_project _ MemFS.fileSystem
           "skill" (skills ++ ["foo"; "SKILL.md"]) global with_null_name
           null_name_md "Body."
           [("name", JNull); ("description", JString "bar")] JNull).
  - vm_compute. reflexivity.
  - vm_compute. reflexivity.
  - left. reflexivity.
  - intros s. discriminate.
Defined.

(** A skill with the references [a.md] and [b.md]. *)
Lemma Skill_prompt_lists_every_content_witness :
  ∃ text,
    Skill.formatForPrompt [content_foo; content_with_references] = Ok text ∧
    has_line "## foo" text ∧
    has_line "### References bundled with foo:" text ∧
    has_line "- b.md" text.
Proof.
  destruct (Skill.formatForPrompt [content_foo; content_with_references])
    as [text|e] eqn:Hrun; [|vm_compute in Hrun; discriminate Hrun].
  exists text. split; [reflexivity|].
  destruct (Skill_prompt_lists_every_content _ text Hrun)
    as (_ & _ & _ & Hlines).
  destruct (Hlines content_with_references) as (Hheading & _ & Hrefs).
  - right. left.
  - split; [exact Hheading|].
    destruct (Hrefs ["a.md"; "b.md"]) as [Htitle Heach].
    + reflexivity.
    + discriminate.
    + split; [exact Htitle|]. apply Heach.
      apply (bool_decide_unpack _). vm_compute. exact I.
Defined.

(** The same contents as domains. *)
Lemma Domain_prompt_lists_every_content_witness :
  ∃ text,
    Domain.formatForPrompt [content_foo; content_with_references] = Ok text ∧
    has_line "END DOMAIN KNOWLEDGE" text ∧
    has_line "These files are available in /home/u/.claude/skills/foo/references/ and can be read" text.
Proof.
  destruct (Domain.formatForPrompt [content_foo; content_with_references])
    as [text|e] eqn:Hrun; [|vm_compute in Hrun; discriminate Hrun].
  exists text. split; [reflexivity|].
  destruct (Domain_prompt_lists_every_content _ text Hrun)
    as (_ & Hend & _ & Hlines).
  split; [exact Hend|].
  destruct (Hlines content_with_references) as (_ & _ & Hrefs).
  - right. left.
  - destruct (Hrefs ["a.md"; "b.md"]) as (_ & Hwhere & _).
    + reflexivity.
    + discriminate.
    + exact Hwhere.
Defined.

(** Metadata without [references] make both formatters throw the
    validation error. *)
Lemma formatForPrompt_fails_on_invalid_metadata_only_witness :
  Skill.formatForPrompt [content_foo; content_without_metadata] = Throw ZodError ∧
  Domain.formatForPrompt [content_foo; content_without_metadata] = Throw ZodError.
Proof.
  destruct (formatForPrompt_fails_on_invalid_metadata_only
              [content_foo; content_without_metadata])
    as (_ & _ & Hskill & Hdomain).
  split.
  - destruct (Skill.formatForPrompt [content_foo; content_without_metadata])
      as [text|e] eqn:Hrun; [vm_compute in Hrun; discriminate Hrun|].
    f_equal. by apply Hskill.
  - destruct (Domain.formatForPrompt [content_foo; content_without_metadata])
      as [text|e] eqn:Hrun; [vm_compute in Hrun; discriminate Hrun|].
    f_equal. by apply Hdomain.
Defined.

(** The skill [foo] loaded with its folder of references. *)
Lemma loaded_contents_can_be_formatted_witness :
  ∃ contents text,
    array_map (fun it => @Discovery.loadContent in_project _ MemFS.fileSystem
                           it with_references) [foo]
    = Ok contents ∧
    Skill.formatForPrompt contents = Ok text.
Proof.
  destruct (array_map (fun it => @Discovery.loadContent in_project _
                                   MemFS.fileSystem it with_references) [foo])
    as [contents|e] eqn:Hrun; [|vm_compute in Hrun; discriminate Hrun].
  destruct (@loaded_contents_can_be_formatted in_project _ MemFS.fileSystem
              with_references [foo] contents Hrun) as ([text Htext] & _).
  exists contents, text. split; [reflexivity|exact Htext].
Defined.

(** The skill [foo] picked and confirmed where [references] is a regular
    file: the cache is written, then [main] exits with code 1. *)
Lemma confirmed_selection_updates_cache_then_loads_witness :
  ∃ fs1,
    @Cache.updateCache in_project _ MemFS.fileSystem [foo] 100 references_is_a_file
    = (Ok (), fs1) ∧
    fs1 !! cache_file
    = Some (file (TestRuntime.stringify
                    {| recent := [(Cache.cacheKey foo, 100)] |})) ∧
    @Main.main in_project _ MemFS.fileSystem no_flags [picks_all] 100
      references_is_a_file
    = (Ok (Main.Exit 1), fs1).
Proof.
  destruct (@confirmed_selection_updates_cache_then_loads in_project _
              MemFS.fileSystem no_flags [picks_all] 100 references_is_a_file
              [foo] [foo] Cache.empty_cache)
    as (fs1 & Hupdate & Hmain).
  - reflexivity.
  - reflexivity.
  - reflexivity.
  - vm_compute. reflexivity.
  - discriminate.
  - vm_compute. reflexivity.
  - vm_compute. reflexivity.
  - discriminate.
  - pose (updated := @Cache.updateCache in_project _ MemFS.fileSystem [foo] 100
                       references_is_a_file).
    assert (Hfs : fs1 = updated.2) by (unfold updated; by rewrite Hupdate).
    assert (Hthrows : @Main.promptSections in_project _ MemFS.fileSystem
                        (Map_groupBy type [foo]) updated.2
                      = Throw (FsError "ENOTDIR"))
      by (vm_compute; reflexivity).
    exists fs1. split; [exact Hupdate|]. rewrite Hmain, Hfs, Hthrows.
    split; [vm_compute|]; reflexivity.
Defined.

(** A pass answered with "no", then a cancelled picker. *)
Lemma selection_restarts_and_cancels_witness :
  @Main.orchestrate in_project _ MemFS.fileSystem no_flags [foo]
    ([starts_over] ++ cancels_picker :: [picks_all]) 100 one_skill
  = (Ok (Main.Exit 0), one_skill).
Proof.
  refine (proj2 (proj2 (@selection_restarts_and_cancels in_project _
                          MemFS.fileSystem no_flags [foo] [starts_over]
                          [picks_all] cancels_picker 100 one_skill _) _)).
  - repeat constructor. vm_compute. discriminate.
  - left. reflexivity.
Defined.

(** A description of 80 ASCII characters under a key stored with timestamp
    0 is cut; one of 40 accented letters (80 bytes) is shown whole; a
    surrogate pair across the cut leaves its high surrogate. *)
Lemma list_mode_lines_of_an_item_witness :
  Cli.item_lines (Object_keys (recent cache_with_zero)) wordy
  = ["* [global] wordy";
     "    " +:+ repeat_string "0123456789" 7 +:+ "..."] ∧
  Cli.item_lines (Object_keys (recent cache_with_zero)) accented
  = ["  [global] accented"; "    " +:+ repeat_string "é" 40] ∧
  Cli.item_lines (Object_keys (recent cache_with_zero)) ends_in_pair
  = ["  [global] pair";
     "    " +:+ repeat_string "0123456789" 6 +:+ "012345678" +:+ lone_D83D
            +:+ "..."].
Proof.
  split; [|split].
  - destruct (list_mode_lines_of_an_item cache_with_zero wordy)
      as (mark & shown & -> & _ & _ & Hzero & _ & Hlong).
    destruct Hzero as [-> _]; [reflexivity|].
    destruct Hlong as [-> _]; [vm_compute; lia|].
    reflexivity.
  - destruct (list_mode_lines_of_an_item cache_with_zero accented)
      as (mark & shown & -> & _ & Hnone & _ & Hshort & _).
    rewrite Hnone by reflexivity. rewrite Hshort by (vm_compute; lia).
    reflexivity.
  - destruct (list_mode_lines_of_an_item cache_with_zero ends_in_pair)
      as (mark & shown & -> & _ & Hnone & _ & _ & Hlong).
    rewrite Hnone by reflexivity.
    destruct Hlong as [-> _]; [vm_compute; lia|].
    reflexivity.
Defined.

(** Two skills listed in one run. *)
Lemma list_mode_lists_every_item_witness :
  ∃ report,
    @Cli.list_report in_project _ MemFS.fileSystem [foo; wordy] [wordy; foo]
      cache_with_zero
    = ("Found 2 primitive(s):" +:+ nl) :: report ∧
    "  [global] foo" ∈ report.
Proof.
  apply (@list_mode_lists_every_item in_project _ MemFS.fileSystem
           [foo; wordy] [wordy; foo] cache_with_zero foo "  [global] foo").
  - right. left.
  - apply (bool_decide_unpack _). vm_compute. exact I.
Defined.

(** [--help] with [--clear-recent] clears nothing; [--clear-recent] with
    [--list] clears and lists nothing; [--list] on the world of one skill
    exits with 0 and writes no cache. *)
Lemma flags_take_precedence_witness :
  @Main.main in_project _ MemFS.fileSystem help_and_clear [picks_all] 100 with_nine
  = (Ok (Main.Exit 0), with_nine) ∧
  (@Main.main in_project _ MemFS.fileSystem clear_and_list [picks_all] 100
     with_nine).2 !! cache_file = None ∧
  @Main.main in_project _ MemFS.fileSystem list_only [picks_all] 100 one_skill
  = (Ok (Main.Exit 0), one_skill).
Proof.
  split; [|split].
  - apply (proj1 (@flags_take_precedence in_project _ MemFS.fileSystem
                    help_and_clear [picks_all] 100 with_nine)).
    reflexivity.
  - rewrite (proj1 (proj2 (@flags_take_precedence in_project _ MemFS.fileSystem
                             clear_and_list [picks_all] 100 with_nine))
               eq_refl eq_refl).
    vm_compute. reflexivity.
  - destruct (proj2 (proj2 (@flags_take_precedence in_project _ MemFS.fileSystem
                              list_only [picks_all] 100 one_skill))
                eq_refl eq_refl eq_refl) as (code & Hmain & _ & Hcode).
    rewrite Hmain. f_equal. f_equal. f_equal. apply Hcode.
    exists [foo]. split; [vm_compute; reflexivity|discriminate].
Defined.
